(** * opencode-channels-plugin: correlation store, Telegram channel,
      permission handler and remote controller

    A shallow embedding of the TypeScript sources

      - [src/state/pending.ts]      (PendingRequestsStore)
      - [src/channels/base.ts]      (BaseChannel)
      - [src/channels/telegram.ts]  (TelegramChannel)
      - [src/handlers/permission.ts] (PermissionHandler)
      - [src/state/state.ts]        (ChannelsStateStore)
      - [src/handlers/remote.ts]    (RemoteController)

    Strings are sequences of UTF-16 code units, as in JavaScript.  A [Map]
    is an insertion-ordered association list with unique keys.  Promises
    live in a heap of promise states; a resolver or rejecter is the index of
    the promise it settles.  Every call that leaves the process ([fetch],
    the host client) takes its outcome as an argument and is recorded in the
    list of calls the function returns. *)

From Stdlib Require Import ZArith NArith List String Ascii Bool Lia.
From Stdlib Require Import DecimalString DecimalZ DecimalPos.
From stdpp Require Import base decidable option list sorting.

Local Open Scope Z_scope.

(* ===================================================================== *)
(** ** JavaScript strings *)
(* ===================================================================== *)

Module JsString.

(** A string is the list of its UTF-16 code units. *)
Abbreviation jsstring := (list N).

(** An ASCII literal as a JavaScript string. *)
Fixpoint u16 (s : string) : jsstring :=
  match s with
  | EmptyString => []
  | String c r => N_of_ascii c :: u16 r
  end.

(** [a === b] on strings. *)
Definition strict_eq (a b : jsstring) : bool := bool_decide (a = b).

(** Truthiness of a string: every string but the empty one. *)
Definition truthy (s : jsstring) : bool :=
  match s with [] => false | _ :: _ => true end.

(** Truthiness of [string | undefined] and [string | null]. *)
Definition truthy_opt (o : option jsstring) : bool :=
  match o with None => false | Some s => truthy s end.

(** [a || b] where [a] is a string that may be undefined. *)
Definition or_else (a : option jsstring) (b : jsstring) : jsstring :=
  match a with
  | Some s => if truthy s then s else b
  | None => b
  end.

(** ECMAScript WhiteSpace and LineTerminator code points: what
    [String.prototype.trim] strips and what [\s] matches. *)
Definition is_ws (c : N) : bool :=
  ((9 <=? c) && (c <=? 13) || (c =? 32) || (c =? 160) || (c =? 5760)
   || (8192 <=? c) && (c <=? 8202)
   || (c =? 8232) || (c =? 8233) || (c =? 8239) || (c =? 8287)
   || (c =? 12288) || (c =? 65279))%N.

Fixpoint trimStart (s : jsstring) : jsstring :=
  match s with
  | [] => []
  | c :: r => if is_ws c then trimStart r else s
  end.

Definition trimEnd (s : jsstring) : jsstring := rev (trimStart (rev s)).

Definition trim (s : jsstring) : jsstring := trimEnd (trimStart s).

(** [toLowerCase], on the Basic Latin letters.  Code units outside A-Z
    are left as they are.  The only use of the result is the comparison
    with six lower-case ASCII words and two glyphs in
    [BaseChannel.parseResponse], and the Unicode lower-case mapping sends
    no character outside A-Z to a letter of those words or to one of the
    glyphs, so the comparison comes out the same. *)
Definition lower_unit (c : N) : N :=
  if ((65 <=? c) && (c <=? 90))%N then (c + 32)%N else c.

Definition toLowerCase (s : jsstring) : jsstring := map lower_unit s.

Fixpoint startsWith (s prefix : jsstring) {struct prefix} : bool :=
  match prefix, s with
  | [], _ => true
  | p :: prefix', c :: s' => (p =? c)%N && startsWith s' prefix'
  | _ :: _, [] => false
  end.

(** [s.slice(0, n)] for [n >= 0] and [s.slice(n)]. *)
Definition slice_to (n : nat) (s : jsstring) : jsstring := take n s.
Definition slice_from (n : nat) (s : jsstring) : jsstring := drop n s.

(** [lines.join(sep)]. *)
Fixpoint join (sep : jsstring) (parts : list jsstring) : jsstring :=
  match parts with
  | [] => []
  | [p] => p
  | p :: rest => p ++ sep ++ join sep rest
  end.

(** [s.split(/\s+/)]: the fields between maximal runs of white space;
    a run at either end leaves an empty field there, and the empty
    string has the single field [""]. *)
Fixpoint split_ws_aux (in_sep : bool) (cur : jsstring) (s : jsstring)
  : list jsstring :=
  match s with
  | [] => [cur]
  | c :: r =>
      if is_ws c then
        if in_sep then split_ws_aux true [] r
        else cur :: split_ws_aux true [] r
      else split_ws_aux false (cur ++ [c]) r
  end.

Definition split_ws (s : jsstring) : list jsstring := split_ws_aux false [] s.

(** [n.toString()] of an integer: decimal digits, a minus sign when
    negative. *)
Definition toString (n : Z) : jsstring :=
  u16 (NilZero.string_of_int (Z.to_int n)).

Definition newline : jsstring := [10%N].
Definition backtick : jsstring := [96%N].

(** The glyphs of the sources, as code units. *)
Definition glyph_check : jsstring := [0x2705%N].           (* U+2705 *)
Definition glyph_cross : jsstring := [0x274C%N].           (* U+274C *)
Definition glyph_bell : jsstring := [0xD83D%N; 0xDD14%N].  (* U+1F514 *)
Definition glyph_timer : jsstring := [0x23F1%N; 0xFE0F%N]. (* U+23F1 U+FE0F *)

End JsString.
Import JsString.

Infix "===" := strict_eq (at level 70, no associativity).

(* ===================================================================== *)
(** ** Thrown values and completions *)
(* ===================================================================== *)

(** An [Error] object: its [name] and its [message]. *)
Record Error := mkError { error_name : jsstring; error_message : jsstring }.

(** [new Error(message)]. *)
Definition new_Error (message : jsstring) : Error :=
  {| error_name := u16 "Error"; error_message := message |}.

(** How a call ends: it returns a value or throws. *)
Inductive Completion (A : Type) : Type :=
| Return (a : A)
| Throw (e : Error).
Arguments Return {A} a.
Arguments Throw {A} e.

(** [PermissionResponse = "allow" | "deny" | string]. *)
Abbreviation PermissionResponse := jsstring (only parsing).

(* ===================================================================== *)
(** ** The built-in [Map<string, V>] *)
(* ===================================================================== *)

Module JsMap.
Section WithValue.
Context {V : Type}.

(** Entries in insertion order.  A well-formed map has no key twice
    ([set] keeps it so). *)
Definition t : Type := list (jsstring * V).

Definition empty : t := [].

Fixpoint get (k : jsstring) (m : t) : option V :=
  match m with
  | [] => None
  | (k', v) :: r => if k' === k then Some v else get k r
  end.

Definition has (k : jsstring) (m : t) : bool :=
  match get k m with Some _ => true | None => false end.

(** [m.set(k, v)]: an existing key keeps its place, a new key goes last. *)
Fixpoint set (k : jsstring) (v : V) (m : t) : t :=
  match m with
  | [] => [(k, v)]
  | (k', v') :: r => if k' === k then (k, v) :: r else (k', v') :: set k v r
  end.

(** [m.delete(k)].  A well-formed map holds [k] at most once. *)
Fixpoint delete (k : jsstring) (m : t) : t :=
  match m with
  | [] => []
  | (k', v') :: r => if k' === k then delete k r else (k', v') :: delete k r
  end.

Definition keys (m : t) : list jsstring := map fst m.
Definition values (m : t) : list V := map snd m.
Definition size (m : t) : nat := length m.

End WithValue.
Arguments t V : clear implicits.
End JsMap.

(* ===================================================================== *)
(** ** Promises and timers of the event loop *)
(* ===================================================================== *)

Inductive PromiseState :=
| Pending
| Fulfilled (value : PermissionResponse)
| Rejected (reason : Error).

(** The callback given to [setTimeout] in [PendingRequestsStore.add]: it
    closes over [request.id] and over the [reject] function of the promise
    being built. *)
Record Timer := mkTimer {
  timer_request_id : jsstring;
  timer_reject : nat;
  timer_ms : Z
}.

Record EventLoop := mkEventLoop {
  promises : list PromiseState;
  timers : list Timer
}.

(** Calling the resolve or reject function of promise [p]: only a pending
    promise changes state. *)
Definition settle (p : nat) (o : PromiseState) (h : list PromiseState)
  : list PromiseState :=
  match h !! p with
  | Some Pending => <[p := o]> h
  | _ => h
  end.

Definition settle_in (p : nat) (o : PromiseState) (el : EventLoop) : EventLoop :=
  {| promises := settle p o (promises el); timers := timers el |}.

(** The state of a promise, [None] for a handle that was never created. *)
Definition promise_state (el : EventLoop) (p : nat) : option PromiseState :=
  promises el !! p.

(* ===================================================================== *)
(** ** src/types.ts *)
(* ===================================================================== *)

(** A value of type [unknown] as the sources use it: a string, or anything
    else together with its rendering [JSON.stringify(v, null, 2)].  A value
    for which [JSON.stringify] gives no string ([undefined], a function, a
    symbol) or throws (a BigInt, a cycle) is no [JsValue]: with such
    arguments [formatPermissionMessage] throws a [TypeError] at
    [argsStr.length], before any request is made. *)
Inductive JsValue :=
| JsText (s : jsstring)
| JsOther (pretty : jsstring).

Module PermissionRequest.
Record t := mk {
  id : jsstring;
  sessionId : jsstring;
  tool : jsstring;
  args : JsValue;
  description : option jsstring;
  timestamp : Z
}.
End PermissionRequest.

Module PendingRequest.
(** [Omit<PendingRequest, "resolver" | "rejecter">]. *)
Record info := mkInfo {
  id : jsstring;
  sessionId : jsstring;
  messageId : jsstring;
  tool : jsstring;
  args : JsValue;
  timestamp : Z
}.
(** [{ ...request, resolver: resolve, rejecter: reject }]. *)
Record t := mk {
  request : info;
  resolver : nat;
  rejecter : nat
}.
End PendingRequest.

(* ===================================================================== *)
(** ** src/state/pending.ts *)
(* ===================================================================== *)

Module PendingRequestsStore.

Record t := mk {
  requests : JsMap.t PendingRequest.t;
  timeoutMs : Z
}.

Definition new (timeoutMs : option Z) : t :=
  {| requests := JsMap.empty;
     timeoutMs := match timeoutMs with Some ms => ms | None => 300000 end |}.

Definition timeout_error (id : jsstring) : Error :=
  new_Error (u16 "Permission request timeout: " ++ id).

Definition cleared_error : Error := new_Error (u16 "Store cleared").

(** [add]: the promise is created, the record stored under [request.id],
    the timer armed.  The result is the handle of the new promise. *)
Definition add (request : PendingRequest.info) (st : t) (el : EventLoop)
  : nat * t * EventLoop :=
  let p := length (promises el) in
  let pending :=
    {| PendingRequest.request := request;
       PendingRequest.resolver := p;
       PendingRequest.rejecter := p |} in
  (p,
   {| requests := JsMap.set (PendingRequest.id request) pending (requests st);
      timeoutMs := timeoutMs st |},
   {| promises := promises el ++ [Pending];
      timers := timers el ++
        [ {| timer_request_id := PendingRequest.id request;
             timer_reject := p;
             timer_ms := timeoutMs st |} ] |}).

(** The body of the timer callback of [add]. *)
Definition on_timeout (tm : Timer) (st : t) (el : EventLoop) : t * EventLoop :=
  if JsMap.has (timer_request_id tm) (requests st) then
    ({| requests := JsMap.delete (timer_request_id tm) (requests st);
        timeoutMs := timeoutMs st |},
     settle_in (timer_reject tm)
       (Rejected (timeout_error (timer_request_id tm))) el)
  else (st, el).

(** The [k]-th armed timer fires: it leaves the timer list and its
    callback runs. *)
Definition timeoutExpire (k : nat) (st : t) (el : EventLoop) : t * EventLoop :=
  match timers el !! k with
  | None => (st, el)
  | Some tm =>
      on_timeout tm st
        {| promises := promises el; timers := delete k (timers el) |}
  end.

Definition resolve (id : jsstring) (response : PermissionResponse)
  (st : t) (el : EventLoop) : bool * t * EventLoop :=
  match JsMap.get id (requests st) with
  | None => (false, st, el)
  | Some request =>
      (true,
       {| requests := JsMap.delete id (requests st); timeoutMs := timeoutMs st |},
       settle_in (PendingRequest.resolver request) (Fulfilled response) el)
  end.

Definition reject (id : jsstring) (error : Error)
  (st : t) (el : EventLoop) : bool * t * EventLoop :=
  match JsMap.get id (requests st) with
  | None => (false, st, el)
  | Some request =>
      (true,
       {| requests := JsMap.delete id (requests st); timeoutMs := timeoutMs st |},
       settle_in (PendingRequest.rejecter request) (Rejected error) el)
  end.

Definition get (id : jsstring) (st : t) : option PendingRequest.t :=
  JsMap.get id (requests st).

Definition has (id : jsstring) (st : t) : bool := JsMap.has id (requests st).

Definition getAll (st : t) : list PendingRequest.t := JsMap.values (requests st).

(** [for (const request of values) request.rejecter(error)]. *)
Fixpoint reject_all (error : Error) (values : list PendingRequest.t)
  (el : EventLoop) : EventLoop :=
  match values with
  | [] => el
  | request :: rest =>
      reject_all error rest
        (settle_in (PendingRequest.rejecter request) (Rejected error) el)
  end.

Definition clear (st : t) (el : EventLoop) : t * EventLoop :=
  ({| requests := JsMap.empty; timeoutMs := timeoutMs st |},
   reject_all cleared_error (JsMap.values (requests st)) el).

Definition setTimeoutMs (ms : Z) (st : t) : t :=
  {| requests := requests st; timeoutMs := ms |}.

(** *** Histories of a store *)

(** What can happen to a store and its event loop. *)
Inductive Event :=
| EvAdd (request : PendingRequest.info)
| EvResolve (id : jsstring) (response : PermissionResponse)
| EvReject (id : jsstring) (error : Error)
| EvTimeout (k : nat)
| EvClear
| EvSetTimeoutMs (ms : Z).

Definition State : Type := t * EventLoop.

Definition step (s : State) (ev : Event) : State :=
  let '(st, el) := s in
  match ev with
  | EvAdd request => let '(_, st', el') := add request st el in (st', el')
  | EvResolve id response =>
      let '(_, st', el') := resolve id response st el in (st', el')
  | EvReject id error =>
      let '(_, st', el') := reject id error st el in (st', el')
  | EvTimeout k => timeoutExpire k st el
  | EvClear => clear st el
  | EvSetTimeoutMs ms => (setTimeoutMs ms st, el)
  end.

Definition run (s : State) (evs : list Event) : State := fold_left step evs s.

Definition initial (timeoutMs : option Z) : State :=
  (new timeoutMs, {| promises := []; timers := [] |}).

(** The state of promise [p] in a state of the store's world. *)
Definition outcome (s : State) (p : nat) : option PromiseState :=
  promise_state (snd s) p.

(** Event [ev] completes promise [p] in state [s]: the promise is pending
    before the event and settled after it. *)
Definition completes (p : nat) (ev : Event) (s : State) : Prop :=
  outcome s p = Some Pending /\ outcome (step s ev) p <> Some Pending.

(** The event registers a request under [id]. *)
Definition adds (id : jsstring) (ev : Event) : bool :=
  match ev with
  | EvAdd request => PendingRequest.id request === id
  | _ => false
  end.

(** The event is an attempt to complete the request registered under
    [id]: a [resolve] or [reject] call for it, or one of its timers
    firing. *)
Definition attempts (id : jsstring) (ev : Event) (s : State) : bool :=
  match ev with
  | EvResolve i _ | EvReject i _ => i === id
  | EvTimeout k =>
      match timers (snd s) !! k with
      | Some tm => timer_request_id tm === id
      | None => false
      end
  | _ => false
  end.

(** What holds in every state a history can produce. *)
Record wf (s : State) : Prop := mk_wf {
  wf_keys : List.NoDup (JsMap.keys (requests (fst s)));
  wf_handles : List.NoDup (map PendingRequest.rejecter (JsMap.values (requests (fst s))));
  wf_entry : forall k e,
    In (k, e) (requests (fst s)) ->
    PendingRequest.id (PendingRequest.request e) = k
    /\ PendingRequest.resolver e = PendingRequest.rejecter e
    /\ outcome s (PendingRequest.rejecter e) = Some Pending;
  wf_timer : forall k e tm,
    In (k, e) (requests (fst s)) -> In tm (timers (snd s)) ->
    timer_reject tm = PendingRequest.rejecter e -> timer_request_id tm = k;
  wf_timer_alloc : forall tm,
    In tm (timers (snd s)) -> (timer_reject tm < length (promises (snd s)))%nat
}.

End PendingRequestsStore.

(* ===================================================================== *)
(** ** src/types.ts and src/config/schema.ts: channel messages *)
(* ===================================================================== *)

Inductive ParseMode := Markdown | HTML.

Record MessageButton := mkButton {
  button_text : jsstring;
  callbackData : jsstring
}.

Module ChannelMessage.
Record t := mk {
  text : jsstring;
  parseMode : option ParseMode;
  buttons : option (list MessageButton)
}.
End ChannelMessage.

Record TelegramConfig := mkTelegramConfig {
  botToken : jsstring;
  chatId : jsstring;
  config_parseMode : ParseMode
}.

(** [ResponseCallback]: a subscriber acts on the world [W] outside the
    channel. *)
Definition ResponseCallback (W : Type) : Type :=
  jsstring -> PermissionResponse -> W -> W.

(* ===================================================================== *)
(** ** The Telegram Bot API as the channel sees it *)
(* ===================================================================== *)

Module Telegram.

Record Message := mkMessage {
  message_id : Z;
  chat_id : Z;
  text : option jsstring;
  reply_to_message : option Z          (* its [message_id] *)
}.

Record CallbackQuery := mkCallbackQuery {
  query_id : jsstring;
  query_message : option (Z * Z);      (* [message_id], [chat.id] *)
  data : option jsstring
}.

Record Update := mkUpdate {
  update_id : Z;
  message : option Message;
  callback_query : option CallbackQuery
}.

(** [TelegramResponse<T>]. *)
Record Response (T : Type) := mkResponse {
  ok : bool;
  result : option T;
  description : option jsstring
}.
Arguments mkResponse {T}.
Arguments ok {T}.
Arguments result {T}.
Arguments description {T}.

Record InlineButton := mkInlineButton {
  inline_text : jsstring;
  callback_data : jsstring
}.

(** The requests the channel makes, with the fields of their JSON body. *)
Inductive ApiCall :=
| sendMessage (chat_id : jsstring) (text : jsstring) (parse_mode : ParseMode)
    (inline_keyboard : option (list (list InlineButton)))
| editMessageText (chat_id : jsstring) (message_id : Z) (text : jsstring)
    (parse_mode : ParseMode)
| answerCallbackQuery (callback_query_id : jsstring) (text : jsstring).

End Telegram.

(* ===================================================================== *)
(** ** src/channels/base.ts *)
(* ===================================================================== *)

Module BaseChannel.

Definition onResponse {W} (callback : ResponseCallback W)
  (responseCallbacks : list (ResponseCallback W)) : list (ResponseCallback W) :=
  responseCallbacks ++ [callback].

Definition notifyResponse {W} (responseCallbacks : list (ResponseCallback W))
  (messageId : jsstring) (response : jsstring) (w : W) : W :=
  fold_left (fun w callback => callback messageId response w)
    responseCallbacks w.

Definition formatPermissionMessage (request : PermissionRequest.t) : jsstring :=
  let argsStr :=
    match PermissionRequest.args request with
    | JsText s => s
    | JsOther pretty => pretty
    end in
  let truncatedArgs :=
    if (500 <? length argsStr)%nat then slice_to 500 argsStr ++ u16 "..."
    else argsStr in
  join newline
    [ glyph_bell ++ u16 " *Permission Required*";
      [];
      u16 "*Tool:* " ++ backtick ++ PermissionRequest.tool request ++ backtick;
      [];
      u16 "```";
      truncatedArgs;
      u16 "```";
      [];
      u16 "_Reply: " ++ glyph_check ++ u16 " allow | " ++ glyph_cross
        ++ u16 " deny | custom text_" ].

Definition parseResponse (text : jsstring) : jsstring :=
  let normalized := trim (toLowerCase text) in
  if (normalized === u16 "allow") || (normalized === u16 "yes")
     || (normalized === u16 "y") || (normalized === glyph_check)
  then u16 "allow"
  else if (normalized === u16 "deny") || (normalized === u16 "no")
          || (normalized === u16 "n") || (normalized === glyph_cross)
  then u16 "deny"
  else trim text.

(** The words [parseResponse] recognises. *)
Definition allow_words : list jsstring :=
  [u16 "allow"; u16 "yes"; u16 "y"; glyph_check].
Definition deny_words : list jsstring :=
  [u16 "deny"; u16 "no"; u16 "n"; glyph_cross].

End BaseChannel.

(* ===================================================================== *)
(** ** src/channels/telegram.ts *)
(* ===================================================================== *)

Module TelegramChannel.
Import Telegram.

(** The fields the methods below read or write.  The polling loop
    ([start], [stop], [poll], [getUpdates]) hands every update it receives
    to [handleUpdate] and is not part of this development. *)
Record t (W : Type) := mk {
  config : TelegramConfig;
  lastUpdateId : Z;
  pollingActive : bool;
  pendingMessageIds : JsMap.t Z;
  responseCallbacks : list (ResponseCallback W)
}.
Arguments mk {W}.
Arguments config {W}.
Arguments lastUpdateId {W}.
Arguments pollingActive {W}.
Arguments pendingMessageIds {W}.
Arguments responseCallbacks {W}.

Definition new {W} (config : TelegramConfig) : t W :=
  {| config := config; lastUpdateId := 0; pollingActive := false;
     pendingMessageIds := JsMap.empty; responseCallbacks := [] |}.

Definition with_pendingMessageIds {W} (m : JsMap.t Z) (ch : t W) : t W :=
  {| config := config ch; lastUpdateId := lastUpdateId ch;
     pollingActive := pollingActive ch;
     pendingMessageIds := m; responseCallbacks := responseCallbacks ch |}.

Definition onResponse {W} (callback : ResponseCallback W) (ch : t W) : t W :=
  {| config := config ch; lastUpdateId := lastUpdateId ch;
     pollingActive := pollingActive ch;
     pendingMessageIds := pendingMessageIds ch;
     responseCallbacks := BaseChannel.onResponse callback (responseCallbacks ch) |}.

(** Truthiness of a [number] that is an integer. *)
Definition number_truthy (n : Z) : bool := negb (n =? 0).

(** The loop over the entries of [pendingMessageIds]. *)
Fixpoint find_entry (messageId : jsstring) (entries : JsMap.t Z)
  : option jsstring :=
  match entries with
  | [] => None
  | (reqId, msgId) :: rest =>
      if toString msgId === messageId then Some reqId
      else find_entry messageId rest
  end.

Definition findRequestIdByMessageId {W} (ch : t W) (messageId : jsstring)
  : option jsstring :=
  find_entry messageId (pendingMessageIds ch).

(** [try { await fetch(...) } catch { }]: whatever the request does, the
    statement completes normally. *)
Definition ignore_errors {A} (outcome : Completion A) : Completion unit :=
  match outcome with
  | Return _ => Return tt
  | Throw _ => Return tt
  end.

Definition answerCallbackQuery (queryId : jsstring) (text : jsstring)
  (fetched : Completion unit) : Completion unit * list ApiCall :=
  (ignore_errors fetched, [Telegram.answerCallbackQuery queryId text]).

Definition handleCallbackQuery {W} (ch : t W) (query : CallbackQuery)
  (fetched : Completion unit) (w : W) : Completion unit * W * list ApiCall :=
  match query_message query, data query with
  | Some (message_id, _), Some data =>
      if negb (truthy data) then (Return tt, w, [])
      else
        let messageId := toString message_id in
        match findRequestIdByMessageId ch messageId with
        | Some requestId =>
            if truthy requestId then
              let response := BaseChannel.parseResponse data in
              let w' := BaseChannel.notifyResponse (responseCallbacks ch)
                          requestId response w in
              let '(done, calls) :=
                answerCallbackQuery (query_id query)
                  (u16 "Response: " ++ response) fetched in
              (done, w', calls)
            else (Return tt, w, [])
        | None => (Return tt, w, [])
        end
  | _, _ => (Return tt, w, [])
  end.

Definition handleUpdate {W} (ch : t W) (update : Update)
  (fetched : Completion unit) (w : W) : Completion unit * W * list ApiCall :=
  match callback_query update with
  | Some query => handleCallbackQuery ch query fetched w
  | None =>
      match message update with
      | Some msg =>
          match text msg, reply_to_message msg with
          | Some text, Some reply_to =>
              if truthy text then
                let replyToId := toString reply_to in
                match findRequestIdByMessageId ch replyToId with
                | Some requestId =>
                    if truthy requestId then
                      let response := BaseChannel.parseResponse text in
                      (Return tt,
                       BaseChannel.notifyResponse (responseCallbacks ch)
                         requestId response w,
                       [])
                    else (Return tt, w, [])
                | None => (Return tt, w, [])
                end
              else (Return tt, w, [])
          | _, _ => (Return tt, w, [])
          end
      | None => (Return tt, w, [])
      end
  end.

(** [const data = await response.json(); if (!data.ok) throw ...] of
    [send]. *)
Definition send_completion (fetched : Completion (Response unit))
  : Completion unit :=
  match fetched with
  | Throw e => Throw e
  | Return data =>
      if negb (ok data) then
        Throw (new_Error (or_else (description data) (u16 "Failed to send message")))
      else Return tt
  end.

Definition send {W} (message : ChannelMessage.t)
  (fetched : Completion (Response unit)) (ch : t W)
  : Completion unit * list ApiCall :=
  let keyboard :=
    match ChannelMessage.buttons message with
    | Some (b :: bs) =>
        Some [ map (fun btn => {| inline_text := button_text btn;
                                  callback_data := callbackData btn |})
                   (b :: bs) ]
    | _ => None
    end in
  let call :=
    sendMessage (chatId (config ch)) (ChannelMessage.text message)
      (match ChannelMessage.parseMode message with
       | Some mode => mode
       | None => config_parseMode (config ch)
       end)
      keyboard in
  (send_completion fetched, [call]).

Definition permission_keyboard : list (list InlineButton) :=
  [ [ {| inline_text := glyph_check ++ u16 " Allow"; callback_data := u16 "allow" |};
      {| inline_text := glyph_cross ++ u16 " Deny"; callback_data := u16 "deny" |} ] ].

Definition sendPermissionRequest {W} (request : PermissionRequest.t)
  (fetched : Completion (Response Z)) (ch : t W)
  : Completion jsstring * t W * list ApiCall :=
  let text := BaseChannel.formatPermissionMessage request in
  let call :=
    sendMessage (chatId (config ch)) text (config_parseMode (config ch))
      (Some permission_keyboard) in
  match fetched with
  | Throw e => (Throw e, ch, [call])
  | Return data =>
      match ok data, result data with
      | true, Some messageId =>
          (Return (PermissionRequest.id request),
           with_pendingMessageIds
             (JsMap.set (PermissionRequest.id request) messageId
                (pendingMessageIds ch)) ch,
           [call])
      | _, _ =>
          (Throw (new_Error (or_else (description data)
                               (u16 "Failed to send permission request"))),
           ch, [call])
      end
  end.

Definition updateMessage {W} (messageId : jsstring) (content : jsstring)
  (fetched : Completion unit) (ch : t W)
  : Completion unit * t W * list ApiCall :=
  match JsMap.get messageId (pendingMessageIds ch) with
  | None => (Return tt, ch, [])
  | Some telegramMsgId =>
      if negb (number_truthy telegramMsgId) then (Return tt, ch, [])
      else
        let call :=
          editMessageText (chatId (config ch)) telegramMsgId content
            (config_parseMode (config ch)) in
        match ignore_errors fetched with
        | Throw e => (Throw e, ch, [call])
        | Return _ =>
            (Return tt,
             with_pendingMessageIds
               (JsMap.delete messageId (pendingMessageIds ch)) ch,
             [call])
        end
  end.

(** The message an update points at: the origin of a callback, or the
    message a text replies to. *)
Definition target (update : Update) : option Z :=
  match callback_query update with
  | Some query =>
      match query_message query with
      | Some (message_id, _) => Some message_id
      | None => None
      end
  | None =>
      match message update with
      | Some msg => reply_to_message msg
      | None => None
      end
  end.

(** The request the correlation table gives for that message. *)
Definition correlated {W} (ch : t W) (update : Update) : option jsstring :=
  match target update with
  | Some message_id => findRequestIdByMessageId ch (toString message_id)
  | None => None
  end.

(** Nothing sees the update: no subscriber runs and no request is made. *)
Definition dropped {W} (ch : t W) (update : Update) : Prop :=
  forall fetched w, handleUpdate ch update fetched w = (Return tt, w, []).

(** *** The receive loop *)

Definition with_lastUpdateId {W} (n : Z) (ch : t W) : t W :=
  {| config := config ch; lastUpdateId := n;
     pollingActive := pollingActive ch;
     pendingMessageIds := pendingMessageIds ch;
     responseCallbacks := responseCallbacks ch |}.

Definition with_pollingActive {W} (b : bool) (ch : t W) : t W :=
  {| config := config ch; lastUpdateId := lastUpdateId ch;
     pollingActive := b;
     pendingMessageIds := pendingMessageIds ch;
     responseCallbacks := responseCallbacks ch |}.

(** [start] and [stop], on the flag the loop tests. *)
Definition start {W} (ch : t W) : t W := with_pollingActive true ch.
Definition stop {W} (ch : t W) : t W := with_pollingActive false ch.

(** The query of [getUpdates]: [?offset=${lastUpdateId}&timeout=30]. *)
Record PollRequest := mkPollRequest {
  poll_offset : Z;
  poll_timeout : Z
}.

Definition getUpdates {W} (fetched : Completion (Response (list Update)))
  (ch : t W) : Completion (list Update) * PollRequest :=
  let request := {| poll_offset := lastUpdateId ch; poll_timeout := 30 |} in
  match fetched with
  | Throw e => (Throw e, request)
  | Return data =>
      if negb (ok data) then
        (Throw (new_Error (or_else (description data)
                             (u16 "Failed to get updates"))), request)
      else
        (Return (match result data with Some updates => updates | None => [] end),
         request)
  end.

(** [for (const update of updates) { this.lastUpdateId = update.update_id + 1;
    await this.handleUpdate(update); }].  [answered] tells what becomes of
    the request that answers the callback of an update. *)
Fixpoint handle_updates {W} (updates : list Update)
  (answered : Update -> Completion unit) (ch : t W) (w : W)
  : Completion unit * t W * W * list ApiCall :=
  match updates with
  | [] => (Return tt, ch, w, [])
  | update :: rest =>
      let ch1 := with_lastUpdateId (update_id update + 1) ch in
      match handleUpdate ch1 update (answered update) w with
      | (Throw e, w1, calls) => (Throw e, ch1, w1, calls)
      | (Return _, w1, calls) =>
          let '(done, ch2, w2, calls') := handle_updates rest answered ch1 w1 in
          (done, ch2, w2, calls ++ calls')
      end
  end.

(** How one round of the [while] loop ends. *)
Inductive PollStep :=
| PollAgain                      (* back to the loop test *)
| PollSleep (ms : Z)             (* [await this.sleep(ms)], then the test *)
| PollBreak.                     (* [break] *)

(** The [catch (error)] block of [poll]. *)
Definition poll_catch (error : Error) : PollStep :=
  if error_name error === u16 "AbortError" then PollBreak else PollSleep 5000.

(** The body of the [while] loop, entered with [pollingActive] set. *)
Definition poll_round {W} (fetched : Completion (Response (list Update)))
  (answered : Update -> Completion unit) (ch : t W) (w : W)
  : PollStep * t W * W * PollRequest * list ApiCall :=
  let '(got, request) := getUpdates fetched ch in
  match got with
  | Throw error => (poll_catch error, ch, w, request, [])
  | Return updates =>
      match handle_updates updates answered ch w with
      | (Return _, ch', w', calls) => (PollAgain, ch', w', request, calls)
      | (Throw error, ch', w', calls) => (poll_catch error, ch', w', request, calls)
      end
  end.

End TelegramChannel.

(* ===================================================================== *)
(** ** src/handlers/permission.ts *)
(* ===================================================================== *)

Module PermissionHandler.

(** What the subscribers of the channel act on: the store and the event
    loop its promises and timers live in. *)
Definition World : Type := PendingRequestsStore.State.

(** The handler with the two objects it holds. *)
Record t := mk {
  channel : TelegramChannel.t World;
  world : World
}.

Definition handleResponse (requestId : jsstring) (response : PermissionResponse)
  (w : World) : World :=
  let '(_, st, el) := PendingRequestsStore.resolve requestId response (fst w) (snd w) in
  (st, el).

(** The constructor subscribes [handleResponse] to the channel. *)
Definition new (channel : TelegramChannel.t World)
  (pendingStore : PendingRequestsStore.t) (el : EventLoop) : t :=
  {| channel := TelegramChannel.onResponse handleResponse channel;
     world := (pendingStore, el) |}.

(** What [Date.now()] and [Math.random().toString(36).slice(2, 9)] give
    during one call. *)
Record Clock := mkClock {
  id_now : Z;
  id_random : jsstring;
  timestamp_now : Z
}.

Definition generateId (clock : Clock) : jsstring :=
  u16 "perm_" ++ toString (id_now clock) ++ u16 "_" ++ id_random clock.

(** The call suspended at [await responsePromise]. *)
Record Awaiting := mkAwaiting {
  request : PermissionRequest.t;
  responsePromise : nat
}.

Definition granted_text (tool : jsstring) (response : PermissionResponse)
  : jsstring :=
  glyph_check ++ u16 " *Permission "
  ++ (if response === u16 "allow" then u16 "Granted"
      else if response === u16 "deny" then u16 "Denied"
      else u16 "Responded")
  ++ u16 "*" ++ newline ++ newline
  ++ u16 "Tool: " ++ backtick ++ tool ++ backtick ++ newline
  ++ u16 "Response: " ++ response.

Definition timeout_text (tool : jsstring) : jsstring :=
  glyph_timer ++ u16 " *Permission Timeout*" ++ newline ++ newline
  ++ u16 "Tool: " ++ backtick ++ tool ++ backtick ++ newline
  ++ u16 "No response received.".

(** [handlePermissionRequest] up to [await responsePromise]. *)
Definition handlePermissionRequest_send (tool : jsstring) (args : JsValue)
  (sessionId : jsstring) (clock : Clock) (fetched : Completion (Telegram.Response Z))
  (h : t) : Completion Awaiting * t * list Telegram.ApiCall :=
  let request :=
    {| PermissionRequest.id := generateId clock;
       PermissionRequest.sessionId := sessionId;
       PermissionRequest.tool := tool;
       PermissionRequest.args := args;
       PermissionRequest.description := None;
       PermissionRequest.timestamp := timestamp_now clock |} in
  match TelegramChannel.sendPermissionRequest request fetched (channel h) with
  | (Throw e, ch, calls) => (Throw e, {| channel := ch; world := world h |}, calls)
  | (Return messageId, ch, calls) =>
      let '(p, st, el) :=
        PendingRequestsStore.add
          {| PendingRequest.id := PermissionRequest.id request;
             PendingRequest.sessionId := sessionId;
             PendingRequest.messageId := messageId;
             PendingRequest.tool := tool;
             PendingRequest.args := args;
             PendingRequest.timestamp := PermissionRequest.timestamp request |}
          (fst (world h)) (snd (world h)) in
      (Return {| request := request; responsePromise := p |},
       {| channel := ch; world := (st, el) |}, calls)
  end.

(** The [catch (error)] block. *)
Definition on_catch (a : Awaiting) (error : Error) (fetched : Completion unit)
  (h : t) : Completion PermissionResponse * t * list Telegram.ApiCall :=
  match TelegramChannel.updateMessage (PermissionRequest.id (request a))
          (timeout_text (PermissionRequest.tool (request a))) fetched (channel h) with
  | (Throw e, ch, calls) => (Throw e, {| channel := ch; world := world h |}, calls)
  | (Return _, ch, calls) => (Throw error, {| channel := ch; world := world h |}, calls)
  end.

(** [handlePermissionRequest] from [await responsePromise] on; [None]
    while the promise is pending.  [fetched] is the outcome of the edit in
    the [try] block, [fetched'] that of the edit in the [catch] block. *)
Definition handlePermissionRequest_resume (a : Awaiting)
  (fetched fetched' : Completion unit) (h : t)
  : option (Completion PermissionResponse * t * list Telegram.ApiCall) :=
  match promise_state (snd (world h)) (responsePromise a) with
  | None | Some Pending => None
  | Some (Fulfilled response) =>
      match TelegramChannel.updateMessage (PermissionRequest.id (request a))
              (granted_text (PermissionRequest.tool (request a)) response)
              fetched (channel h) with
      | (Return _, ch, calls) =>
          Some (Return response, {| channel := ch; world := world h |}, calls)
      | (Throw error, ch, calls) =>
          let '(done, h', calls') :=
            on_catch a error fetched' {| channel := ch; world := world h |} in
          Some (done, h', calls ++ calls')
      end
  | Some (Rejected error) => Some (on_catch a error fetched h)
  end.

End PermissionHandler.

(* ===================================================================== *)
(** ** src/state/state.ts *)
(* ===================================================================== *)

Module ChannelsStateStore.

(** [ChannelsState], without [pendingPermissions], whose element type is
    not declared in [types.ts] and which the controller never reads. *)
Record ChannelsState := mkState {
  enabled : option bool;
  activeSessionId : option jsstring;
  telegram_lastUpdateId : option Z
}.

(** The store, and what the file at [statePath] holds since the last
    [save]. *)
Record t := mk {
  statePath : jsstring;
  state : ChannelsState;
  file : option ChannelsState
}.

Definition save (s : t) : t :=
  {| statePath := statePath s; state := state s; file := Some (state s) |}.

Definition setEnabled (value : bool) (s : t) : t :=
  save {| statePath := statePath s;
          state := {| enabled := Some value;
                      activeSessionId := activeSessionId (state s);
                      telegram_lastUpdateId := telegram_lastUpdateId (state s) |};
          file := file s |}.

Definition isEnabled (defaultValue : bool) (s : t) : bool :=
  match enabled (state s) with
  | Some b => b
  | None => defaultValue
  end.

Definition setActiveSessionId (sessionId : option jsstring) (s : t) : t :=
  save {| statePath := statePath s;
          state := {| enabled := enabled (state s);
                      activeSessionId :=
                        if truthy_opt sessionId then sessionId else None;
                      telegram_lastUpdateId := telegram_lastUpdateId (state s) |};
          file := file s |}.

Definition getActiveSessionId (s : t) : option jsstring :=
  activeSessionId (state s).

(** [channels.telegram.lastUpdateId]: the nested optional objects are
    created on the way, and the getter reads through them. *)
Definition setTelegramLastUpdateId (lastUpdateId : Z) (s : t) : t :=
  save {| statePath := statePath s;
          state := {| enabled := enabled (state s);
                      activeSessionId := activeSessionId (state s);
                      telegram_lastUpdateId := Some lastUpdateId |};
          file := file s |}.

Definition getTelegramLastUpdateId (s : t) : option Z :=
  telegram_lastUpdateId (state s).

(** The calls that change the store, and a sequence of them. *)
Inductive Mutation :=
| SetEnabled (value : bool)
| SetActiveSessionId (sessionId : option jsstring)
| SetTelegramLastUpdateId (lastUpdateId : Z).

Definition mutate (s : t) (m : Mutation) : t :=
  match m with
  | SetEnabled value => setEnabled value s
  | SetActiveSessionId sessionId => setActiveSessionId sessionId s
  | SetTelegramLastUpdateId lastUpdateId => setTelegramLastUpdateId lastUpdateId s
  end.

End ChannelsStateStore.

(* ===================================================================== *)
(** ** src/handlers/remote.ts *)
(* ===================================================================== *)

Module RemoteController.

(** Modelled from the spec: the declaration of [ChannelIncomingMessage] is
    missing from [types.ts]; an inbound event carries free text, and
    [handleIncoming] reads nothing but [message.text]. *)
Record ChannelIncomingMessage := mkIncoming { text : jsstring }.

(** A session of the host, with the fields the controller reads. *)
Record Session := mkSession {
  id : jsstring;
  title : jsstring;
  time_updated : Z
}.

(** The calls the controller makes: to the host client and, through the
    channel, to the Bot API. *)
Inductive Call :=
| session_list (directory : jsstring)
| session_prompt (id : jsstring) (directory : jsstring) (text : jsstring)
| api (c : Telegram.ApiCall).

(** How the outside answers during one [handleIncoming]: [result.data] of
    [session.list], [session.prompt], and the [fetch] of [channel.send]. *)
Record Outside := mkOutside {
  listed : Completion (option (list Session));
  prompted : Completion unit;
  fetched : Completion (Telegram.Response unit)
}.

Record t (W : Type) := mk {
  channel : TelegramChannel.t W;
  stateStore : ChannelsStateStore.t;
  directory : jsstring;
  enabled : bool
}.
Arguments mk {W}.
Arguments channel {W}.
Arguments stateStore {W}.
Arguments directory {W}.
Arguments enabled {W}.

Definition with_stateStore {W} (s : ChannelsStateStore.t) (rc : t W) : t W :=
  {| channel := channel rc; stateStore := s;
     directory := directory rc; enabled := enabled rc |}.

Definition setEnabled {W} (value : bool) (rc : t W) : t W :=
  {| channel := channel rc;
     stateStore := ChannelsStateStore.setEnabled value (stateStore rc);
     directory := directory rc; enabled := value |}.

Definition isEnabled {W} (rc : t W) : bool := enabled rc.

(** [await this.channel.send({ text, parseMode: "Markdown" })]. *)
Definition channel_send {W} (text : jsstring) (out : Outside) (rc : t W)
  : Completion unit * t W * list Call :=
  let '(done, calls) :=
    TelegramChannel.send
      {| ChannelMessage.text := text;
         ChannelMessage.parseMode := Some Markdown;
         ChannelMessage.buttons := None |}
      (fetched out) (channel rc) in
  (done, rc, map api calls).

(** [String(error)] of an [Error] object. *)
Definition String_of_error (e : Error) : jsstring :=
  match error_name e, error_message e with
  | [], msg => msg
  | name, [] => name
  | name, msg => name ++ u16 ": " ++ msg
  end.

Definition formatStatus {W} (rc : t W) : jsstring :=
  let sessionId := ChannelsStateStore.getActiveSessionId (stateStore rc) in
  join newline
    [ u16 "*Channels Status*";
      [];
      u16 "Enabled: " ++ backtick
        ++ (if enabled rc then u16 "yes" else u16 "no") ++ backtick;
      u16 "Active session: " ++ backtick
        ++ (match sessionId with Some s => s | None => u16 "none" end)
        ++ backtick ].

(** [sessions.sort((a, b) => b.time.updated - a.time.updated)]: a stable
    sort, most recently updated first. *)
Fixpoint insert_by_updated (x : Session) (sorted : list Session) : list Session :=
  match sorted with
  | [] => [x]
  | y :: rest =>
      if time_updated y <? time_updated x then x :: y :: rest
      else y :: insert_by_updated x rest
  end.

Definition sort_by_updated (sessions : list Session) : list Session :=
  fold_left (fun sorted x => insert_by_updated x sorted) sessions [].

Definition session_line (active : option jsstring) (session : Session) : jsstring :=
  let suffix :=
    match active with
    | Some a => if a === id session then u16 " (active)" else []
    | None => []
    end in
  backtick ++ slice_to 8 (id session) ++ backtick ++ u16 " - "
  ++ or_else (Some (title session)) (u16 "Untitled") ++ suffix.

Definition sendSessionList {W} (out : Outside) (rc : t W)
  : Completion unit * t W * list Call :=
  match listed out with
  | Throw e => (Throw e, rc, [session_list (directory rc)])
  | Return data =>
      let sessions := match data with Some l => l | None => [] end in
      let sorted := sort_by_updated sessions in
      let top := take 5 sorted in
      let '(done, rc', calls) :=
        match top with
        | [] => channel_send (u16 "No sessions found.") out rc
        | _ :: _ =>
            let active := ChannelsStateStore.getActiveSessionId (stateStore rc) in
            let lines :=
              [u16 "*Recent Sessions*"] ++ map (session_line active) top
              ++ [ []; u16 "Use `/use <sessionId>` to select." ] in
            channel_send (join newline lines) out rc
        end in
      (done, rc', session_list (directory rc) :: calls)
  end.

Definition setActiveSession {W} (sessionIdPrefix : jsstring) (out : Outside)
  (rc : t W) : Completion unit * t W * list Call :=
  match listed out with
  | Throw e => (Throw e, rc, [session_list (directory rc)])
  | Return data =>
      let sessions := match data with Some l => l | None => [] end in
      let matches :=
        List.filter (fun session => startsWith (id session) sessionIdPrefix)
          sessions in
      let '(done, rc', calls) :=
        match matches with
        | [] =>
            channel_send
              (u16 "Session not found. Use `/list` to see recent sessions.")
              out rc
        | _ :: _ :: _ =>
            channel_send
              (u16 "Multiple matches. Use a longer session ID prefix.") out rc
        | [session] =>
            channel_send
              (u16 "Active session set to " ++ backtick
               ++ slice_to 8 (id session) ++ backtick)
              out
              (with_stateStore
                 (ChannelsStateStore.setActiveSessionId (Some (id session))
                    (stateStore rc)) rc)
        end in
      (done, rc', session_list (directory rc) :: calls)
  end.

Definition help_text : jsstring :=
  join newline
    [ u16 "*Commands*";
      [];
      u16 "`/list` - list recent sessions";
      u16 "`/use <sessionId>` - set active session";
      u16 "`/status` - show current status" ].

Definition handleCommand {W} (raw : jsstring) (out : Outside) (rc : t W)
  : Completion unit * t W * list Call :=
  match split_ws (trim raw) with
  | [] => channel_send (u16 "Unknown command. Use `/help`.") out rc
  | command :: args =>
      if command === u16 "help" then channel_send help_text out rc
      else if command === u16 "status" then channel_send (formatStatus rc) out rc
      else if command === u16 "list" then sendSessionList out rc
      else if command === u16 "use" then
        match args with
        | [] => channel_send (u16 "Usage: `/use <sessionId>`") out rc
        | arg :: _ => setActiveSession arg out rc
        end
      else channel_send (u16 "Unknown command. Use `/help`.") out rc
  end.

Definition handleIncoming {W} (message : ChannelIncomingMessage) (out : Outside)
  (rc : t W) : Completion unit * t W * list Call :=
  let text := trim (text message) in
  if negb (enabled rc) then (Return tt, rc, [])
  else if negb (truthy text) then (Return tt, rc, [])
  else if startsWith text (u16 "/") then handleCommand (slice_from 1 text) out rc
  else
    let sessionId := ChannelsStateStore.getActiveSessionId (stateStore rc) in
    match sessionId with
    | Some sid =>
        if truthy sid then
          let call := session_prompt sid (directory rc) text in
          match prompted out with
          | Return _ => (Return tt, rc, [call])
          | Throw error =>
              let '(done, rc', calls) :=
                channel_send
                  (glyph_cross ++ u16 " Failed to send message: "
                   ++ String_of_error error) out rc in
              (done, rc', call :: calls)
          end
        else
          channel_send
            (u16 "No active session. Use `/list` then `/use <sessionId>`.")
            out rc
    | None =>
        channel_send
          (u16 "No active session. Use `/list` then `/use <sessionId>`.")
          out rc
    end.

(** [a] was updated no earlier than [b]. *)
Definition more_recent (a b : Session) : Prop := time_updated b <= time_updated a.

(** The calls to the host's prompt endpoint among [calls]. *)
Definition prompt_calls (calls : list Call) : list Call :=
  List.filter (fun c => match c with session_prompt _ _ _ => true | _ => false end)
    calls.

End RemoteController.

(* ===================================================================== *)
(** ** src/handlers/notification.ts *)
(* ===================================================================== *)

Module NotificationHandler.

(** [NotificationEvent["type"]]. *)
Inductive EventType := complete | error | idle.

Record NotificationsConfig := mkConfig {
  onPermission : bool;
  onComplete : bool;
  onError : bool;
  onIdle : bool
}.

Record NotificationEvent := mkEvent {
  type : EventType;
  sessionId : option jsstring;
  message : jsstring;
  details : option jsstring
}.

Record t (W : Type) := mk {
  channel : TelegramChannel.t W;
  config : NotificationsConfig
}.
Arguments mk {W}.
Arguments channel {W}.
Arguments config {W}.

Definition shouldNotify {W} (h : t W) (type : EventType) : bool :=
  match type with
  | complete => onComplete (config h)
  | error => onError (config h)
  | idle => onIdle (config h)
  end.

Definition glyph_sleep : jsstring := [0xD83D%N; 0xDCA4%N].   (* U+1F4A4 *)

Definition getIcon (type : EventType) : jsstring :=
  match type with
  | complete => glyph_check
  | error => glyph_cross
  | idle => glyph_sleep
  end.

Definition formatNotification (event : NotificationEvent) : jsstring :=
  let icon := getIcon (type event) in
  let lines := [icon ++ u16 " *" ++ message event ++ u16 "*"] in
  let lines :=
    match sessionId event with
    | Some sid =>
        if truthy sid then
          lines ++ [u16 "Session: " ++ backtick ++ slice_to 8 sid
                    ++ u16 "..." ++ backtick]
        else lines
    | None => lines
    end in
  let lines :=
    match details event with
    | Some d =>
        if truthy d then lines ++ [ []; u16 "```"; slice_to 500 d; u16 "```" ]
        else lines
    | None => lines
    end in
  join newline lines.

Definition notify {W} (event : NotificationEvent)
  (fetched : Completion (Telegram.Response unit)) (h : t W)
  : Completion unit * list Telegram.ApiCall :=
  if negb (shouldNotify h (type event)) then (Return tt, [])
  else
    TelegramChannel.send
      {| ChannelMessage.text := formatNotification event;
         ChannelMessage.parseMode := Some Markdown;
         ChannelMessage.buttons := None |}
      fetched (channel h).

Definition notifyComplete {W} (sessionId : jsstring) (summary : option jsstring)
  (fetched : Completion (Telegram.Response unit)) (h : t W)
  : Completion unit * list Telegram.ApiCall :=
  notify {| type := complete; sessionId := Some sessionId;
            message := u16 "Task completed"; details := summary |} fetched h.

Definition notifyError {W} (sessionId : jsstring) (error : jsstring)
  (fetched : Completion (Telegram.Response unit)) (h : t W)
  : Completion unit * list Telegram.ApiCall :=
  notify {| type := NotificationHandler.error; sessionId := Some sessionId;
            message := u16 "Error occurred"; details := Some error |} fetched h.

Definition notifyIdle {W} (sessionId : jsstring)
  (fetched : Completion (Telegram.Response unit)) (h : t W)
  : Completion unit * list Telegram.ApiCall :=
  notify {| type := idle; sessionId := Some sessionId;
            message := u16 "Session idle"; details := None |} fetched h.

End NotificationHandler.

(* ===================================================================== *)
(** ** src/index.ts: the [permission.ask] hook *)
(* ===================================================================== *)

Module Plugin.

(** [output.status] of the host's permission hook. *)
Inductive Status := ask | deny | allow.

(** The hook from the point where [handlePermissionRequest] has
    completed: an answer "allow" or "deny" sets the status, any other
    answer leaves it, and what the handler throws is caught and logged. *)
Definition permission_ask (handled : Completion PermissionResponse)
  (status : Status) : Completion unit * Status :=
  match handled with
  | Return response =>
      if response === u16 "allow" then (Return tt, allow)
      else if response === u16 "deny" then (Return tt, deny)
      else (Return tt, status)
  | Throw _ => (Return tt, status)
  end.

End Plugin.

(* ===================================================================== *)
(** ** Concrete data for the examples *)
(* ===================================================================== *)

Module Sample.

Definition info (id : string) : PendingRequest.info :=
  {| PendingRequest.id := u16 id;
     PendingRequest.sessionId := u16 "ses_1";
     PendingRequest.messageId := u16 id;
     PendingRequest.tool := u16 "bash";
     PendingRequest.args := JsOther (u16 "{}");
     PendingRequest.timestamp := 1700000000000 |}.

(** A store with the two requests [r1] and [r2] outstanding. *)
Definition two_pending : PendingRequestsStore.State :=
  PendingRequestsStore.run (PendingRequestsStore.initial None)
    [PendingRequestsStore.EvAdd (info "r1"); PendingRequestsStore.EvAdd (info "r2")].

Definition config : TelegramConfig :=
  {| botToken := u16 "123:abc"; chatId := u16 "1001"; config_parseMode := Markdown |}.

(** A subscriber that logs what it is called with. *)
Definition log_callback : ResponseCallback (list (jsstring * jsstring)) :=
  fun messageId response log => log ++ [(messageId, response)].

(** A channel with that subscriber and the request [perm_1] sent as
    message 42. *)
Definition channel : TelegramChannel.t (list (jsstring * jsstring)) :=
  TelegramChannel.with_pendingMessageIds [(u16 "perm_1", 42)]
    (TelegramChannel.onResponse log_callback (TelegramChannel.new config)).

(** The same subscriber on a fresh channel. *)
Definition fresh_channel : TelegramChannel.t (list (jsstring * jsstring)) :=
  TelegramChannel.onResponse log_callback (TelegramChannel.new config).

Definition request (id : string) : PermissionRequest.t :=
  {| PermissionRequest.id := u16 id;
     PermissionRequest.sessionId := u16 "ses_1";
     PermissionRequest.tool := u16 "bash";
     PermissionRequest.args := JsOther (u16 "{}");
     PermissionRequest.description := None;
     PermissionRequest.timestamp := 1700000000000 |}.

(** The Bot API accepts a message and numbers it [message_id]. *)
Definition sent (message_id : Z) : Completion (Telegram.Response Z) :=
  Return {| Telegram.ok := true; Telegram.result := Some message_id;
            Telegram.description := None |}.

Definition sent_ok : Completion (Telegram.Response unit) :=
  Return {| Telegram.ok := true; Telegram.result := Some tt;
            Telegram.description := None |}.

(** Unsolicited text, and a reply to a message nobody waits for. *)
Definition plain_text : Telegram.Update :=
  {| Telegram.update_id := 7;
     Telegram.message :=
       Some {| Telegram.message_id := 50; Telegram.chat_id := 1001;
               Telegram.text := Some (u16 "hello");
               Telegram.reply_to_message := None |};
     Telegram.callback_query := None |}.

Definition stray_reply : Telegram.Update :=
  {| Telegram.update_id := 8;
     Telegram.message :=
       Some {| Telegram.message_id := 51; Telegram.chat_id := 1001;
               Telegram.text := Some (u16 "deny");
               Telegram.reply_to_message := Some 41 |};
     Telegram.callback_query := None |}.

Definition reply_to (message_id : Z) (text : string) : Telegram.Update :=
  {| Telegram.update_id := 9;
     Telegram.message :=
       Some {| Telegram.message_id := 52; Telegram.chat_id := 1001;
               Telegram.text := Some (u16 text);
               Telegram.reply_to_message := Some message_id |};
     Telegram.callback_query := None |}.

(** A handler on a fresh channel and an empty store. *)
Definition handler : PermissionHandler.t :=
  PermissionHandler.new (TelegramChannel.new config)
    (PendingRequestsStore.new None) {| promises := []; timers := [] |}.

Definition clock : PermissionHandler.Clock :=
  {| PermissionHandler.id_now := 1700000000000;
     PermissionHandler.id_random := u16 "k3x9q2a";
     PermissionHandler.timestamp_now := 1700000000001 |}.

(** The handler after it has sent a request for [bash], numbered 42 by the
    Bot API, and the call waiting for the answer. *)
Definition waiting_handler : PermissionHandler.t :=
  snd (fst (PermissionHandler.handlePermissionRequest_send (u16 "bash")
              (JsOther (u16 "{}")) (u16 "ses_1") clock (sent 42) handler)).

Definition awaiting : PermissionHandler.Awaiting :=
  {| PermissionHandler.request :=
       {| PermissionRequest.id := PermissionHandler.generateId clock;
          PermissionRequest.sessionId := u16 "ses_1";
          PermissionRequest.tool := u16 "bash";
          PermissionRequest.args := JsOther (u16 "{}");
          PermissionRequest.description := None;
          PermissionRequest.timestamp := 1700000000001 |};
     PermissionHandler.responsePromise := 0%nat |}.

(** The same handler once the timer of the request has fired. *)
Definition timed_out_handler : PermissionHandler.t :=
  {| PermissionHandler.channel := PermissionHandler.channel waiting_handler;
     PermissionHandler.world :=
       PendingRequestsStore.step (PermissionHandler.world waiting_handler)
         (PendingRequestsStore.EvTimeout 0%nat) |}.

(** The handler after it has sent the same request and the Bot API has
    numbered the message 0, then once the timer of the request has fired,
    and once the store has been cleared instead. *)
Definition zero_waiting_handler : PermissionHandler.t :=
  snd (fst (PermissionHandler.handlePermissionRequest_send (u16 "bash")
              (JsOther (u16 "{}")) (u16 "ses_1") clock (sent 0) handler)).

Definition zero_timed_out_handler : PermissionHandler.t :=
  {| PermissionHandler.channel := PermissionHandler.channel zero_waiting_handler;
     PermissionHandler.world :=
       PendingRequestsStore.step (PermissionHandler.world zero_waiting_handler)
         (PendingRequestsStore.EvTimeout 0%nat) |}.

Definition zero_cleared_handler : PermissionHandler.t :=
  {| PermissionHandler.channel := PermissionHandler.channel zero_waiting_handler;
     PermissionHandler.world :=
       PendingRequestsStore.step (PermissionHandler.world zero_waiting_handler)
         PendingRequestsStore.EvClear |}.

(** The waiting handler once the answer "deny" has reached the store. *)
Definition answered_handler : PermissionHandler.t :=
  {| PermissionHandler.channel := PermissionHandler.channel waiting_handler;
     PermissionHandler.world :=
       PermissionHandler.handleResponse (PermissionHandler.generateId clock)
         (u16 "deny") (PermissionHandler.world waiting_handler) |}.

(** A controller with no active session, and the host's sessions. *)
Definition controller : RemoteController.t (list (jsstring * jsstring)) :=
  {| RemoteController.channel := fresh_channel;
     RemoteController.stateStore :=
       {| ChannelsStateStore.statePath := u16 "channels-state.json";
          ChannelsStateStore.state :=
            {| ChannelsStateStore.enabled := Some true;
               ChannelsStateStore.activeSessionId := None;
               ChannelsStateStore.telegram_lastUpdateId := None |};
          ChannelsStateStore.file := None |};
     RemoteController.directory := u16 "/work";
     RemoteController.enabled := true |}.

Definition sessions : list RemoteController.Session :=
  [ {| RemoteController.id := u16 "ses_abcd1"; RemoteController.title := u16 "one";
       RemoteController.time_updated := 30 |};
    {| RemoteController.id := u16 "ses_abzz2"; RemoteController.title := [];
       RemoteController.time_updated := 50 |};
    {| RemoteController.id := u16 "ses_xy003"; RemoteController.title := u16 "three";
       RemoteController.time_updated := 40 |} ].

Definition outside : RemoteController.Outside :=
  {| RemoteController.listed := Return (Some sessions);
     RemoteController.prompted := Return tt;
     RemoteController.fetched := sent_ok |}.

Definition incoming (text : string) : RemoteController.ChannelIncomingMessage :=
  {| RemoteController.text := u16 text |}.

(** The controller with [ses_abcd1] active, and a host that fails. *)
Definition active_controller : RemoteController.t (list (jsstring * jsstring)) :=
  RemoteController.with_stateStore
    (ChannelsStateStore.setActiveSessionId (Some (u16 "ses_abcd1"))
       (RemoteController.stateStore controller)) controller.

Definition failing_outside : RemoteController.Outside :=
  {| RemoteController.listed := Throw (new_Error (u16 "host down"));
     RemoteController.prompted := Throw (new_Error (u16 "host down"));
     RemoteController.fetched := sent_ok |}.

End Sample.

(* ===================================================================== *)
(** * Properties *)
(* ===================================================================== *)

(** ** Strings *)

Section StringFacts.

Lemma strict_eq_true (a b : jsstring) : (a === b) = true <-> a = b.
Proof. unfold strict_eq. apply bool_decide_eq_true. Qed.

Lemma strict_eq_false (a b : jsstring) : (a === b) = false <-> a <> b.
Proof. unfold strict_eq. apply bool_decide_eq_false. Qed.

Lemma strict_eq_refl (a : jsstring) : (a === a) = true.
Proof. now apply strict_eq_true. Qed.

Lemma is_ws_true (c : N) :
  is_ws c = true <->
  ((9 <= c <= 13) \/ c = 32 \/ c = 160 \/ c = 5760 \/ (8192 <= c <= 8202)
   \/ c = 8232 \/ c = 8233 \/ c = 8239 \/ c = 8287 \/ c = 12288 \/ c = 65279)%N.
Proof.
  unfold is_ws.
  rewrite !orb_true_iff, !andb_true_iff, !N.leb_le, !N.eqb_eq. tauto.
Qed.

Lemma is_ws_lower (c : N) : is_ws (lower_unit c) = is_ws c.
Proof.
  unfold lower_unit.
  destruct (andb _ _) eqn:E; [|reflexivity].
  apply andb_true_iff in E as [E1 E2].
  apply N.leb_le in E1. apply N.leb_le in E2.
  destruct (is_ws c) eqn:Hc.
  - apply is_ws_true in Hc. lia.
  - destruct (is_ws (c + 32)) eqn:Hc'; [|reflexivity].
    apply is_ws_true in Hc'. lia.
Qed.

Lemma trimStart_lower (s : jsstring) :
  trimStart (toLowerCase s) = toLowerCase (trimStart s).
Proof.
  induction s as [|c r IH]; [reflexivity|].
  cbn [toLowerCase map trimStart]. rewrite is_ws_lower.
  destruct (is_ws c); [exact IH | reflexivity].
Qed.

Lemma trim_lower (s : jsstring) : trim (toLowerCase s) = toLowerCase (trim s).
Proof.
  unfold trim, trimEnd. rewrite trimStart_lower.
  unfold toLowerCase at 1. rewrite <- map_rev.
  fold (toLowerCase (rev (trimStart s))).
  rewrite trimStart_lower. unfold toLowerCase. now rewrite map_rev.
Qed.

(** What [trimStart] leaves does not begin with white space. *)
Lemma trimStart_head (s : jsstring) :
  match trimStart s with
  | [] => True
  | c :: _ => is_ws c = false
  end.
Proof.
  induction s as [|c r IH]; [exact I|].
  cbn [trimStart]. destruct (is_ws c) eqn:E; [exact IH | exact E].
Qed.

(** [trimStart] keeps a suffix. *)
Lemma trimStart_suffix (s : jsstring) : exists pre, s = pre ++ trimStart s.
Proof.
  induction s as [|c r [pre IH]]; [now exists []|].
  cbn [trimStart]. destruct (is_ws c).
  - exists (c :: pre). cbn. now rewrite <- IH.
  - now exists [].
Qed.

Lemma trimStart_fixed (s : jsstring) c r :
  s = c :: r -> is_ws c = false -> trimStart s = s.
Proof. intros -> H. cbn. now rewrite H. Qed.

(** A trimmed string neither begins nor ends with white space. *)
Lemma trim_ends (s : jsstring) :
  (forall c r, trim s = c :: r -> is_ws c = false)
  /\ (forall pre x, trim s = pre ++ [x] -> is_ws x = false).
Proof.
  unfold trim, trimEnd.
  pose proof (trimStart_head s) as Hh.
  set (t := trimStart s) in *.
  pose proof (trimStart_head (rev t)) as Hl.
  destruct (trimStart_suffix (rev t)) as [pre' Hpre].
  set (u := trimStart (rev t)) in *.
  split.
  - intros c r Hu.
    assert (Ht : t = (c :: r) ++ rev pre').
    { rewrite <- Hu, <- rev_app_distr, <- Hpre. now rewrite rev_involutive. }
    rewrite Ht in Hh. exact Hh.
  - intros pre x Hu.
    assert (Hx : u = x :: rev pre).
    { rewrite <- (rev_involutive u), Hu, rev_app_distr. reflexivity. }
    rewrite Hx in Hl. exact Hl.
Qed.

(** The fields of a string without white space at either end are not
    empty, the one field of the empty string apart. *)
Lemma split_ws_aux_fields (s : jsstring) : forall in_sep cur,
  (forall pre x, s = pre ++ [x] -> is_ws x = false) ->
  (in_sep = true -> s <> []) ->
  (in_sep = false -> cur <> [] \/ exists c r, s = c :: r /\ is_ws c = false) ->
  Forall (fun field => field <> []) (split_ws_aux in_sep cur s).
Proof.
  induction s as [|c r IH]; intros in_sep cur Hlast Hsep Hcur; cbn.
  - destruct in_sep; [now exfalso; apply Hsep|].
    constructor; [|constructor].
    destruct (Hcur eq_refl) as [H|(c & r & H & _)]; [exact H | discriminate H].
  - assert (Hlast' : forall pre x, r = pre ++ [x] -> is_ws x = false).
    { intros pre x ->. now apply (Hlast (c :: pre) x). }
    destruct (is_ws c) eqn:Hc.
    + assert (Hr : r <> []).
      { intros ->. specialize (Hlast [] c eq_refl). congruence. }
      destruct in_sep.
      * apply IH; [exact Hlast' | intros _; exact Hr | discriminate].
      * constructor.
        -- destruct (Hcur eq_refl) as [H|(c' & r' & [= <- <-] & H)];
             [exact H | congruence].
        -- apply IH; [exact Hlast' | intros _; exact Hr | discriminate].
    + apply IH; [exact Hlast' | discriminate |].
      intros _. left. now destruct cur.
Qed.

Lemma split_ws_trim_fields (raw : jsstring) first second rest :
  split_ws (trim raw) = first :: second :: rest ->
  Forall (fun field => field <> []) (first :: second :: rest).
Proof.
  intros H. rewrite <- H. unfold split_ws.
  destruct (trim_ends raw) as [Hhead Hlast].
  apply split_ws_aux_fields; [exact Hlast | discriminate |].
  intros _. destruct (trim raw) as [|c r] eqn:E.
  - discriminate H.
  - right. exists c, r. split; [reflexivity|]. now apply (Hhead c r).
Qed.

Lemma startsWith_nonempty (s prefix : jsstring) :
  startsWith s prefix = true -> prefix <> [] -> s <> [].
Proof. destruct prefix, s; cbn; congruence. Qed.

Lemma toString_inj (a b : Z) : toString a = toString b -> a = b.
Proof.
  unfold toString. intros H.
  assert (Hu : forall x y, u16 x = u16 y -> x = y).
  { induction x as [|c x IH]; destruct y as [|d y]; cbn; try discriminate.
    - reflexivity.
    - intros [= Hc Hr]. f_equal; [|now apply IH].
      rewrite <- (ascii_N_embedding c), <- (ascii_N_embedding d). now rewrite Hc. }
  apply Hu in H.
  apply (f_equal NilZero.int_of_string) in H.
  assert (Hn : forall z, NilZero.int_of_string (NilZero.string_of_int (Z.to_int z))
                         = Some (Z.to_int z)).
  { intros z. apply NilZero.isi; destruct z as [|q|q]; cbn; try discriminate;
      intros [= E]; now apply (DecimalPos.Unsigned.to_uint_nonnil q). }
  rewrite !Hn in H. injection H as H. now apply DecimalZ.to_int_inj.
Qed.

End StringFacts.

(** ** Maps *)

Section MapFacts.
Context {V : Type}.
Implicit Types (m : JsMap.t V) (k : jsstring) (v : V).

Lemma get_set_eq m k v : JsMap.get k (JsMap.set k v m) = Some v.
Proof.
  induction m as [|[k' v'] r IH]; cbn.
  - now rewrite strict_eq_refl.
  - destruct (k' === k) eqn:E; cbn.
    + now rewrite strict_eq_refl.
    + now rewrite E.
Qed.

Lemma get_set_ne m k k' v :
  k <> k' -> JsMap.get k' (JsMap.set k v m) = JsMap.get k' m.
Proof.
  intros Hne. induction m as [|[k0 v0] r IH]; cbn.
  - now apply strict_eq_false in Hne as ->.
  - destruct (k0 === k) eqn:E; cbn.
    + apply strict_eq_true in E as ->.
      now apply strict_eq_false in Hne as ->.
    + now rewrite IH.
Qed.

Lemma get_delete_eq m k : JsMap.get k (JsMap.delete k m) = None.
Proof.
  induction m as [|[k' v'] r IH]; cbn; [reflexivity|].
  destruct (k' === k) eqn:E; cbn; [exact IH | now rewrite E].
Qed.

Lemma get_delete_ne m k k' :
  k <> k' -> JsMap.get k' (JsMap.delete k m) = JsMap.get k' m.
Proof.
  intros Hne. induction m as [|[k0 v0] r IH]; cbn; [reflexivity|].
  destruct (k0 === k) eqn:E; cbn.
  - apply strict_eq_true in E as ->.
    now apply strict_eq_false in Hne as ->.
  - now rewrite IH.
Qed.

Lemma has_delete m k : JsMap.has k (JsMap.delete k m) = false.
Proof. unfold JsMap.has. now rewrite get_delete_eq. Qed.

Lemma has_false m k : JsMap.has k m = false <-> JsMap.get k m = None.
Proof. unfold JsMap.has. destruct (JsMap.get k m); split; congruence. Qed.

Lemma get_In m k v : JsMap.get k m = Some v -> In (k, v) m.
Proof.
  induction m as [|[k' v'] r IH]; cbn; [discriminate|].
  destruct (k' === k) eqn:E.
  - apply strict_eq_true in E as ->. intros [= ->]. now left.
  - intros H. right. now apply IH.
Qed.

Lemma get_None_In m k v : JsMap.get k m = None -> ~ In (k, v) m.
Proof.
  induction m as [|[k' v'] r IH]; cbn; [tauto|].
  destruct (k' === k) eqn:E; [discriminate|].
  apply strict_eq_false in E. intros H [[= -> ->]|Hin]; [congruence|].
  now apply IH.
Qed.

Lemma In_delete m k k' v :
  In (k', v) (JsMap.delete k m) -> In (k', v) m /\ k' <> k.
Proof.
  induction m as [|[k0 v0] r IH]; cbn; [tauto|].
  destruct (k0 === k) eqn:E.
  - intros H. destruct (IH H). tauto.
  - apply strict_eq_false in E.
    intros [[= -> ->]|H]; [tauto|]. destruct (IH H). tauto.
Qed.

Lemma In_set m k k' v v' :
  In (k', v') (JsMap.set k v m) -> (k' = k /\ v' = v) \/ In (k', v') m.
Proof.
  induction m as [|[k0 v0] r IH]; cbn.
  - intros [[= -> ->]|[]]. now left.
  - destruct (k0 === k) eqn:E.
    + intros [[= -> ->]|H]; [now left | right; now right].
    + intros [[= -> ->]|H]; [right; now left|].
      destruct (IH H); [now left | right; now right].
Qed.

Lemma In_keys_delete m k k' :
  In k' (JsMap.keys (JsMap.delete k m)) -> In k' (JsMap.keys m).
Proof.
  unfold JsMap.keys. rewrite !in_map_iff.
  intros [[k0 v0] [<- H]]. apply In_delete in H as [H _].
  now exists (k0, v0).
Qed.

Lemma NoDup_keys_delete m k :
  List.NoDup (JsMap.keys m) -> List.NoDup (JsMap.keys (JsMap.delete k m)).
Proof.
  induction m as [|[k' v'] r IH]; cbn; [auto|].
  change (JsMap.keys ((k', v') :: r)) with (k' :: JsMap.keys r).
  rewrite NoDup_cons_iff. intros [Hn Hr].
  destruct (k' === k); [now apply IH|].
  change (JsMap.keys ((k', v') :: JsMap.delete k r))
    with (k' :: JsMap.keys (JsMap.delete k r)).
  apply NoDup_cons_iff. split; [|now apply IH].
  intros H. apply Hn. now apply In_keys_delete in H.
Qed.

Lemma In_keys_set m k v k' :
  In k' (JsMap.keys (JsMap.set k v m)) -> k' = k \/ In k' (JsMap.keys m).
Proof.
  unfold JsMap.keys. rewrite !in_map_iff.
  intros [[k0 v0] [<- H]]. apply In_set in H as [[-> _]|H]; [now left|].
  right. now exists (k0, v0).
Qed.

Lemma NoDup_keys_set m k v :
  List.NoDup (JsMap.keys m) -> List.NoDup (JsMap.keys (JsMap.set k v m)).
Proof.
  induction m as [|[k' v'] r IH]; cbn.
  - intros _. repeat constructor. cbn. tauto.
  - change (JsMap.keys ((k', v') :: r)) with (k' :: JsMap.keys r).
    rewrite NoDup_cons_iff. intros [Hn Hr].
    destruct (k' === k) eqn:E.
    + apply strict_eq_true in E as ->.
      change (JsMap.keys ((k, v) :: r)) with (k :: JsMap.keys r).
      apply NoDup_cons_iff. tauto.
    + apply strict_eq_false in E.
      change (JsMap.keys ((k', v') :: JsMap.set k v r))
        with (k' :: JsMap.keys (JsMap.set k v r)).
      apply NoDup_cons_iff. split; [|now apply IH].
      intros H. apply In_keys_set in H as [Heq|H]; cbn in *; tauto.
Qed.

(** The values of a map under a projection [g] stay distinct when an
    entry is deleted, and when one is set to a value with a fresh
    projection. *)
Lemma In_values_delete {B} (g : V -> B) m k b :
  In b (map g (JsMap.values (JsMap.delete k m))) ->
  In b (map g (JsMap.values m)).
Proof.
  unfold JsMap.values. rewrite !in_map_iff.
  intros [v [<- H]]. apply in_map_iff in H as [[k0 v0] [<- H]].
  apply In_delete in H as [H _].
  exists v0. split; [reflexivity|]. apply in_map_iff. now exists (k0, v0).
Qed.

Lemma NoDup_values_delete {B} (g : V -> B) m k :
  List.NoDup (map g (JsMap.values m)) ->
  List.NoDup (map g (JsMap.values (JsMap.delete k m))).
Proof.
  induction m as [|[k' v'] r IH]; cbn; [auto|].
  change (map g (JsMap.values ((k', v') :: r)))
    with (g v' :: map g (JsMap.values r)).
  rewrite NoDup_cons_iff. intros [Hn Hr].
  destruct (k' === k); [now apply IH|].
  change (map g (JsMap.values ((k', v') :: JsMap.delete k r)))
    with (g v' :: map g (JsMap.values (JsMap.delete k r))).
  apply NoDup_cons_iff. split; [|now apply IH].
  intros H. apply Hn. now apply In_values_delete in H.
Qed.

Lemma In_values_set {B} (g : V -> B) m k v b :
  In b (map g (JsMap.values (JsMap.set k v m))) ->
  b = g v \/ In b (map g (JsMap.values m)).
Proof.
  unfold JsMap.values. rewrite !in_map_iff.
  intros [v1 [<- H]]. apply in_map_iff in H as [[k0 v0] [<- H]].
  apply In_set in H as [[_ ->]|H]; [now left|].
  right. exists v0. split; [reflexivity|]. apply in_map_iff. now exists (k0, v0).
Qed.

Lemma NoDup_values_set {B} (g : V -> B) m k v :
  ~ In (g v) (map g (JsMap.values m)) ->
  List.NoDup (map g (JsMap.values m)) ->
  List.NoDup (map g (JsMap.values (JsMap.set k v m))).
Proof.
  induction m as [|[k' v'] r IH]; cbn.
  - intros _ _. repeat constructor. cbn. tauto.
  - change (map g (JsMap.values ((k', v') :: r)))
      with (g v' :: map g (JsMap.values r)).
    intros Hf. rewrite NoDup_cons_iff. intros [Hn Hr].
    destruct (k' === k) eqn:E.
    + change (map g (JsMap.values ((k, v) :: r)))
        with (g v :: map g (JsMap.values r)).
      apply NoDup_cons_iff. cbn in Hf. tauto.
    + change (map g (JsMap.values ((k', v') :: JsMap.set k v r)))
        with (g v' :: map g (JsMap.values (JsMap.set k v r))).
      apply NoDup_cons_iff. cbn in Hf.
      split; [|apply IH; tauto].
      intros H. apply In_values_set in H as [H|H]; [|tauto].
      apply Hf. now left.
Qed.

Lemma In_values m v : In v (JsMap.values m) <-> exists k, In (k, v) m.
Proof.
  unfold JsMap.values. rewrite in_map_iff. split.
  - intros [[k v0] [<- H]]. now exists k.
  - intros [k H]. now exists (k, v).
Qed.

End MapFacts.

(** ** Promises *)

Section PromiseFacts.
Implicit Types (h : list PromiseState) (p q : nat) (o x : PromiseState).

Lemma settle_length p o h : length (settle p o h) = length h.
Proof.
  unfold settle. destruct (h !! p) as [[| |]|]; try reflexivity.
  apply length_insert.
Qed.

Lemma settle_pending p o h :
  h !! p = Some Pending -> settle p o h !! p = Some o.
Proof.
  intros H. unfold settle. rewrite H.
  apply list_lookup_insert_eq. now apply lookup_lt_Some in H.
Qed.

Lemma settle_other p q o h : p <> q -> settle p o h !! q = h !! q.
Proof.
  intros H. unfold settle. destruct (h !! p) as [[| |]|]; try reflexivity.
  now apply list_lookup_insert_ne.
Qed.

(** A promise never leaves the heap, and a settled promise keeps its
    state. *)
Lemma settle_mono p q o h x :
  h !! q = Some x ->
  exists y, settle p o h !! q = Some y /\ (x <> Pending -> y = x).
Proof.
  intros H. destruct (decide (p = q)) as [->|Hne].
  - unfold settle. rewrite H. destruct x.
    + exists o. split; [|congruence].
      apply list_lookup_insert_eq. now apply lookup_lt_Some in H.
    + eauto.
    + eauto.
  - exists x. split; [|reflexivity]. now rewrite settle_other.
Qed.

End PromiseFacts.

(** ** The store of pending requests *)

Section StoreFacts.
Import PendingRequestsStore.
Implicit Types (s : State) (st : t) (el : EventLoop) (ev : Event) (p : nat).

Lemma In_list_delete {A} (l : list A) (k : nat) (x : A) :
  In x (delete k l) -> In x l.
Proof.
  revert k. induction l as [|a l IH]; intros [|k]; cbn; try tauto.
  intros [->|H]; [now left | right; now apply (IH k)].
Qed.

Lemma NoDup_map_eq {A B} (f : A -> B) (l : list A) (a b : A) :
  List.NoDup (map f l) -> In a l -> In b l -> f a = f b -> a = b.
Proof.
  induction l as [|c l IH]; cbn; [tauto|].
  rewrite NoDup_cons_iff. intros [Hn Hl] [->|Ha] [->|Hb] E; auto.
  - exfalso. apply Hn. rewrite E. now apply in_map.
  - exfalso. apply Hn. rewrite <- E. now apply in_map.
Qed.

Lemma reject_all_timers e l el : timers (reject_all e l el) = timers el.
Proof. revert el. induction l as [|r l IH]; intros el; cbn; [reflexivity|]. now rewrite IH. Qed.

Lemma reject_all_length e l el :
  length (promises (reject_all e l el)) = length (promises el).
Proof.
  revert el. induction l as [|r l IH]; intros el; cbn; [reflexivity|].
  rewrite IH. cbn. apply settle_length.
Qed.

Lemma reject_all_mono e l el p x :
  promises el !! p = Some x ->
  exists y, promises (reject_all e l el) !! p = Some y /\ (x <> Pending -> y = x).
Proof.
  revert el x. induction l as [|r l IH]; intros el x H; cbn.
  - eauto.
  - destruct (settle_mono (PendingRequest.rejecter r) p (Rejected e) _ _ H)
      as [y1 [H1 K1]].
    destruct (IH (settle_in (PendingRequest.rejecter r) (Rejected e) el) y1 H1)
      as [y [H2 K2]].
    exists y. split; [exact H2|]. intros Hx.
    specialize (K1 Hx). subst y1. now apply K2.
Qed.

Lemma reject_all_rejects e l el r :
  In r l ->
  promises el !! PendingRequest.rejecter r = Some Pending
  \/ promises el !! PendingRequest.rejecter r = Some (Rejected e) ->
  promises (reject_all e l el) !! PendingRequest.rejecter r = Some (Rejected e).
Proof.
  revert el. induction l as [|r0 l IH]; intros el; cbn; [tauto|].
  intros [->|Hin] H.
  - assert (H1 : promises (settle_in (PendingRequest.rejecter r) (Rejected e) el)
                 !! PendingRequest.rejecter r = Some (Rejected e)).
    { cbn. destruct H as [H|H].
      - now apply settle_pending.
      - destruct (settle_mono (PendingRequest.rejecter r)
                    (PendingRequest.rejecter r) (Rejected e) _ _ H) as [y [Hy K]].
        rewrite Hy. f_equal. now apply K. }
    destruct (reject_all_mono e l _ _ _ H1) as [y [Hy K]].
    rewrite Hy. f_equal. now apply K.
  - apply IH; [exact Hin|]. cbn.
    destruct (decide (PendingRequest.rejecter r0 = PendingRequest.rejecter r))
      as [E|E].
    + rewrite E. destruct H as [H|H].
      * right. now apply settle_pending.
      * right.
        destruct (settle_mono (PendingRequest.rejecter r)
                    (PendingRequest.rejecter r) (Rejected e) _ _ H) as [y [Hy K]].
        rewrite Hy. f_equal. now apply K.
    + now rewrite settle_other.
Qed.

Lemma reject_all_rejects_handle e l el p :
  In p (map PendingRequest.rejecter l) ->
  promises el !! p = Some Pending ->
  promises (reject_all e l el) !! p = Some (Rejected e).
Proof.
  intros H Hp. apply in_map_iff in H as [r [<- Hr]].
  apply reject_all_rejects; [exact Hr | now left].
Qed.

(** *** Promises along a history *)

Lemma step_outcome_mono s ev p x :
  outcome s p = Some x ->
  exists y, outcome (step s ev) p = Some y /\ (x <> Pending -> y = x).
Proof.
  destruct s as [st el]. unfold outcome, promise_state. cbn [snd].
  intros H. destruct ev as [request|id response|id error|k| |ms]; cbn [step].
  - cbn. exists x. split; [|reflexivity]. now apply lookup_app_l_Some.
  - unfold resolve. destruct (JsMap.get id (requests st)); cbn; [|eauto].
    now apply settle_mono.
  - unfold reject. destruct (JsMap.get id (requests st)); cbn; [|eauto].
    now apply settle_mono.
  - unfold timeoutExpire. destruct (timers el !! k) as [tm|]; cbn; [|eauto].
    unfold on_timeout. destruct (JsMap.has _ _); cbn; [|eauto].
    now apply settle_mono.
  - cbn. now apply reject_all_mono.
  - cbn. eauto.
Qed.

Lemma run_app s evs evs' : run s (evs ++ evs') = run (run s evs) evs'.
Proof. unfold run. apply fold_left_app. Qed.

Lemma run_outcome_mono evs s p x :
  outcome s p = Some x ->
  exists y, outcome (run s evs) p = Some y /\ (x <> Pending -> y = x).
Proof.
  revert s x. induction evs as [|ev evs IH]; intros s x H; cbn; [eauto|].
  destruct (step_outcome_mono s ev p x H) as [y1 [H1 K1]].
  destruct (IH (step s ev) y1 H1) as [y [H2 K2]].
  exists y. split; [exact H2|]. intros Hx.
  specialize (K1 Hx). subst y1. now apply K2.
Qed.

(** An event that completes a promise leaves it settled for good. *)
Lemma completes_settles s ev p evs :
  completes p ev s ->
  outcome (run (step s ev) evs) p <> Some Pending.
Proof.
  intros [Hb Ha].
  destruct (step_outcome_mono s ev p _ Hb) as [y [Hy _]].
  destruct (run_outcome_mono evs (step s ev) p y Hy) as [z [Hz K]].
  rewrite Hz. intros [= ->]. apply Ha. rewrite Hy. f_equal.
  destruct y; [reflexivity | |]; symmetry; now apply K.
Qed.

(** *** Presence of an id along a history *)

Lemma get_delete_None (m : JsMap.t PendingRequest.t) k k' :
  JsMap.get k m = None -> JsMap.get k (JsMap.delete k' m) = None.
Proof.
  intros H. destruct (decide (k' = k)) as [->|Hne].
  - apply get_delete_eq.
  - now rewrite get_delete_ne.
Qed.

Lemma step_attempt_removes s ev id :
  attempts id ev s = true -> has id (fst (step s ev)) = false.
Proof.
  destruct s as [st el]. unfold has.
  destruct ev as [request|i response|i error|k| |ms]; cbn [attempts snd step];
    try discriminate.
  - intros H. apply strict_eq_true in H as ->. unfold resolve.
    destruct (JsMap.get id (requests st)) eqn:E; cbn.
    + apply has_delete.
    + now apply has_false.
  - intros H. apply strict_eq_true in H as ->. unfold reject.
    destruct (JsMap.get id (requests st)) eqn:E; cbn.
    + apply has_delete.
    + now apply has_false.
  - unfold timeoutExpire. destruct (timers el !! k) as [tm|]; [|discriminate].
    intros H. apply strict_eq_true in H as <-. unfold on_timeout.
    destruct (JsMap.has (timer_request_id tm) (requests st)) eqn:E; cbn.
    + apply has_delete.
    + exact E.
Qed.

Lemma step_keeps_absent s ev id :
  adds id ev = false -> has id (fst s) = false -> has id (fst (step s ev)) = false.
Proof.
  destruct s as [st el]. unfold has. rewrite !has_false. cbn [fst].
  destruct ev as [request|i response|i error|k| |ms]; cbn [adds step]; intros Ha H.
  - cbn. apply strict_eq_false in Ha. now rewrite get_set_ne.
  - unfold resolve. destruct (JsMap.get i (requests st)); cbn; [|exact H].
    now apply get_delete_None.
  - unfold reject. destruct (JsMap.get i (requests st)); cbn; [|exact H].
    now apply get_delete_None.
  - unfold timeoutExpire. destruct (timers el !! k) as [tm|]; cbn; [|exact H].
    unfold on_timeout. destruct (JsMap.has _ _); cbn; [|exact H].
    now apply get_delete_None.
  - reflexivity.
  - exact H.
Qed.

Lemma run_keeps_absent evs s id :
  forallb (fun ev => negb (adds id ev)) evs = true ->
  has id (fst s) = false -> has id (fst (run s evs)) = false.
Proof.
  revert s. induction evs as [|ev evs IH]; intros s; cbn; [auto|].
  rewrite andb_true_iff, negb_true_iff. intros [Ha Hr] H.
  apply IH; [exact Hr|]. now apply step_keeps_absent.
Qed.

Lemma resolve_absent st el id response :
  has id st = false -> resolve id response st el = (false, st, el).
Proof. unfold has. rewrite has_false. intros H. unfold resolve. now rewrite H. Qed.

Lemma reject_absent st el id error :
  has id st = false -> reject id error st el = (false, st, el).
Proof. unfold has. rewrite has_false. intros H. unfold reject. now rewrite H. Qed.

(** C1.  Take any state of the store and an attempt to complete the
    request registered under [id]: a [resolve] call, a [reject] call or the
    firing of one of its timers.  After it the id is no longer in the map.
    As long as the id is not registered again, it stays absent, and every
    later [resolve] or [reject] call for it returns [false] and leaves the
    store, the promises and the timers as they are.  And along the whole
    history no promise is completed by two events: once an event has
    settled it, no later event does. *)
Theorem request_completes_at_most_once
  (s : State) (id : jsstring) (first : Event) (later : list Event) :
  attempts id first s = true ->
  forallb (fun ev => negb (adds id ev)) later = true ->
  has id (fst (step s first)) = false
  /\ (forall before after, later = before ++ after ->
      let s' := run (step s first) before in
      has id (fst s') = false
      /\ (forall response,
            resolve id response (fst s') (snd s') = (false, fst s', snd s'))
      /\ (forall error,
            reject id error (fst s') (snd s') = (false, fst s', snd s')))
  /\ (forall p before ev between ev' after,
      first :: later = before ++ ev :: between ++ ev' :: after ->
      completes p ev (run s before) ->
      ~ completes p ev' (run s (before ++ ev :: between))).
Proof.
  intros Hfirst Hlater.
  pose proof (step_attempt_removes s first id Hfirst) as Hgone.
  split; [exact Hgone|]. split.
  - intros before after ->. cbn zeta.
    rewrite forallb_app, andb_true_iff in Hlater. destruct Hlater as [Hb _].
    pose proof (run_keeps_absent before (step s first) id Hb Hgone) as Habs.
    split; [exact Habs|]. split; intros.
    + now apply resolve_absent.
    + now apply reject_absent.
  - intros p before ev between ev' after _ Hc [Hpending _].
    rewrite run_app in Hpending. cbn [run fold_left] in Hpending.
    now apply (completes_settles _ _ _ between Hc).
Qed.

(** *** The invariant of the store *)

Lemma wf_initial timeout : wf (initial timeout).
Proof. split; cbn; try constructor; tauto. Qed.

Lemma wf_rejecter_alloc s k e :
  wf s -> In (k, e) (requests (fst s)) ->
  (PendingRequest.rejecter e < length (promises (snd s)))%nat.
Proof.
  intros W H. destruct (wf_entry s W k e H) as (_ & _ & Hp).
  now apply lookup_lt_Some in Hp.
Qed.

Lemma wf_handle_inj s k e k' e' :
  wf s -> In (k, e) (requests (fst s)) -> In (k', e') (requests (fst s)) ->
  PendingRequest.rejecter e = PendingRequest.rejecter e' -> k = k'.
Proof.
  intros W H H' E.
  pose proof (wf_handles s W) as N. unfold JsMap.values in N.
  rewrite map_map in N.
  assert (X : (k, e) = (k', e')) by
    now apply (NoDup_map_eq _ _ _ _ N H H').
  congruence.
Qed.

Lemma wf_add request st el :
  wf (st, el) -> wf (step (st, el) (EvAdd request)).
Proof.
  intros W.
  assert (Halloc : forall k e, In (k, e) (requests st) ->
                     (PendingRequest.rejecter e < length (promises el))%nat)
    by (intros k e; apply (wf_rejecter_alloc (st, el) k e W)).
  split; cbn.
  - apply NoDup_keys_set, (wf_keys _ W).
  - apply NoDup_values_set; [|apply (wf_handles _ W)].
    cbn. intros H. apply in_map_iff in H as [e [He Hin]].
    apply In_values in Hin as [k Hin]. specialize (Halloc k e Hin). lia.
  - intros k e H. apply In_set in H as [[-> ->]|H].
    + cbn. repeat split. unfold outcome, promise_state. cbn.
      now apply list_lookup_middle.
    + destruct (wf_entry _ W k e H) as (A & B & C). repeat split; auto.
      unfold outcome, promise_state in *. cbn in *. now apply lookup_app_l_Some.
  - intros k e tm H Ht E. apply in_app_iff in Ht.
    apply In_set in H as [[-> ->]|H]; destruct Ht as [Ht|[<-|[]]]; cbn in *.
    + pose proof (wf_timer_alloc _ W tm Ht). cbn in *. lia.
    + reflexivity.
    + now apply (wf_timer _ W k e tm).
    + specialize (Halloc k e H). lia.
  - intros tm Ht. apply in_app_iff in Ht. rewrite length_app. cbn.
    destruct Ht as [Ht|[<-|[]]]; cbn.
    + pose proof (wf_timer_alloc _ W tm Ht). cbn in *. lia.
    + lia.
Qed.

(** Deleting the entry of [id] and settling a promise that no other entry
    holds keeps the invariant. *)
Lemma wf_remove st el id p o :
  wf (st, el) ->
  (forall k e, In (k, e) (requests st) -> k <> id -> PendingRequest.rejecter e <> p) ->
  wf ({| requests := JsMap.delete id (requests st); timeoutMs := timeoutMs st |},
      settle_in p o el).
Proof.
  intros W Hother. split; cbn.
  - apply NoDup_keys_delete, (wf_keys _ W).
  - apply NoDup_values_delete, (wf_handles _ W).
  - intros k e H. apply In_delete in H as [H Hne].
    destruct (wf_entry _ W k e H) as (A & B & C). repeat split; auto.
    unfold outcome, promise_state in *. cbn in *.
    rewrite settle_other; [exact C|]. intros Heq. now apply (Hother k e H Hne).
  - intros k e tm H Ht E. apply In_delete in H as [H _].
    now apply (wf_timer _ W k e tm).
  - intros tm Ht. rewrite settle_length. now apply (wf_timer_alloc _ W tm).
Qed.

Lemma wf_drop_timer st el k :
  wf (st, el) ->
  wf (st, {| promises := promises el; timers := delete k (timers el) |}).
Proof.
  intros W. split; cbn.
  - apply (wf_keys _ W).
  - apply (wf_handles _ W).
  - apply (wf_entry _ W).
  - intros k0 e tm H Ht. apply In_list_delete in Ht. now apply (wf_timer _ W k0 e tm).
  - intros tm Ht. apply In_list_delete in Ht. now apply (wf_timer_alloc _ W tm).
Qed.

Lemma wf_step s ev : wf s -> wf (step s ev).
Proof.
  destruct s as [st el]. intros W.
  destruct ev as [request|id response|id error|k| |ms].
  - now apply wf_add.
  - cbn [step]. unfold resolve.
    destruct (JsMap.get id (requests st)) as [e0|] eqn:E; [|exact W].
    apply get_In in E. apply wf_remove; [exact W|].
    intros k e H Hne Heq. apply Hne.
    destruct (wf_entry _ W id e0 E) as (_ & B & _). rewrite B in Heq.
    now apply (wf_handle_inj _ _ _ _ _ W H E).
  - cbn [step]. unfold reject.
    destruct (JsMap.get id (requests st)) as [e0|] eqn:E; [|exact W].
    apply get_In in E. apply wf_remove; [exact W|].
    intros k e H Hne Heq. apply Hne.
    now apply (wf_handle_inj _ _ _ _ _ W H E).
  - cbn [step]. unfold timeoutExpire.
    destruct (timers el !! k) as [tm|] eqn:E; [|exact W].
    apply list_elem_of_lookup_2, list_elem_of_In in E.
    pose proof (wf_drop_timer st el k W) as W'.
    unfold on_timeout.
    destruct (JsMap.has (timer_request_id tm) (requests st)); [|exact W'].
    apply wf_remove; [exact W'|].
    intros k0 e H Hne Heq. apply Hne. symmetry.
    now apply (wf_timer _ W k0 e tm).
  - cbn [step]. unfold clear. split; cbn; try constructor; try tauto.
    intros tm Ht. rewrite reject_all_timers in Ht. rewrite reject_all_length.
    now apply (wf_timer_alloc _ W tm).
  - cbn [step]. split; cbn.
    + apply (wf_keys _ W).
    + apply (wf_handles _ W).
    + apply (wf_entry _ W).
    + apply (wf_timer _ W).
    + apply (wf_timer_alloc _ W).
Qed.

Lemma wf_run evs s : wf s -> wf (run s evs).
Proof.
  revert s. induction evs as [|ev evs IH]; intros s W; cbn; [exact W|].
  now apply IH, wf_step.
Qed.

Lemma wf_history timeout history : wf (run (initial timeout) history).
Proof. apply wf_run, wf_initial. Qed.

Lemma request_completes_at_most_once_witness :
  has (u16 "r1")
    (fst (step Sample.two_pending (EvResolve (u16 "r1") (u16 "allow")))) = false.
Proof.
  apply (proj1 (request_completes_at_most_once Sample.two_pending (u16 "r1")
                  (EvResolve (u16 "r1") (u16 "allow"))
                  [EvTimeout 0%nat; EvResolve (u16 "r1") (u16 "deny"); EvClear]
                  eq_refl eq_refl)).
Defined.

(** In a state of a history, the first [resolve] for a registered id
    fulfils its promise with the response, the first [reject] rejects it
    with the error, and its own timer rejects it with the timeout error. *)
Lemma resolve_registered s id e response :
  wf s -> get id (fst s) = Some e ->
  outcome (step s (EvResolve id response)) (PendingRequest.resolver e)
  = Some (Fulfilled response).
Proof.
  destruct s as [st el]. intros W H. unfold get in H. cbn in H.
  cbn [step]. unfold resolve. rewrite H. unfold outcome, promise_state. cbn.
  apply settle_pending. apply get_In in H.
  destruct (wf_entry _ W id e H) as (_ & B & C). rewrite B. exact C.
Qed.

Lemma reject_registered s id e error :
  wf s -> get id (fst s) = Some e ->
  outcome (step s (EvReject id error)) (PendingRequest.rejecter e)
  = Some (Rejected error).
Proof.
  destruct s as [st el]. intros W H. unfold get in H. cbn in H.
  cbn [step]. unfold reject. rewrite H. unfold outcome, promise_state. cbn.
  apply settle_pending. apply get_In in H.
  now destruct (wf_entry _ W id e H) as (_ & _ & C).
Qed.

Lemma timeout_registered s id e k tm :
  wf s -> get id (fst s) = Some e -> timers (snd s) !! k = Some tm ->
  timer_request_id tm = id -> timer_reject tm = PendingRequest.rejecter e ->
  outcome (step s (EvTimeout k)) (PendingRequest.rejecter e)
  = Some (Rejected (timeout_error id)).
Proof.
  destruct s as [st el]. intros W H Ht <- Hp. unfold get in H. cbn in H, Ht.
  cbn [step]. unfold timeoutExpire. rewrite Ht. unfold on_timeout, JsMap.has.
  rewrite H. unfold outcome, promise_state. cbn. rewrite Hp.
  apply settle_pending. apply get_In in H.
  now destruct (wf_entry _ W _ e H) as (_ & _ & C).
Qed.

(** C5.  In every state a history of the store can produce, the
    outstanding requests hold pairwise distinct pending promises; [clear]
    rejects each of them with the error "Store cleared" and leaves the map
    empty. *)
Theorem clear_rejects_every_request (timeout : option Z) (history : list Event) :
  let s := run (initial timeout) history in
  let s' := clear (fst s) (snd s) in
  List.NoDup (map PendingRequest.rejecter (getAll (fst s)))
  /\ (forall request, In request (getAll (fst s)) ->
        outcome s (PendingRequest.rejecter request) = Some Pending
        /\ outcome s' (PendingRequest.rejecter request)
           = Some (Rejected cleared_error))
  /\ requests (fst s') = JsMap.empty
  /\ getAll (fst s') = [].
Proof.
  intros s s'. pose proof (wf_history timeout history) as W. fold s in W.
  split; [apply (wf_handles _ W)|]. split; [|split; reflexivity].
  intros request Hin. unfold getAll in Hin.
  pose proof Hin as Hin'. apply In_values in Hin' as [k Hk].
  destruct (wf_entry _ W k request Hk) as (_ & _ & C).
  split; [exact C|].
  unfold s', clear, outcome, promise_state. cbn [snd].
  apply reject_all_rejects; [exact Hin|]. now left.
Qed.

Lemma clear_rejects_every_request_witness :
  let s := Sample.two_pending in
  let s' := clear (fst s) (snd s) in
  length (getAll (fst s)) = 2%nat
  /\ outcome s 0%nat = Some Pending
  /\ outcome s' 0%nat = Some (Rejected cleared_error).
Proof.
  split; [reflexivity|].
  apply (proj1 (proj2 (clear_rejects_every_request None
                         [EvAdd (Sample.info "r1"); EvAdd (Sample.info "r2")]))
           {| PendingRequest.request := Sample.info "r1";
              PendingRequest.resolver := 0%nat;
              PendingRequest.rejecter := 0%nat |}).
  vm_compute. now left.
Defined.

End StoreFacts.

(** ** Response normalisation *)

Section ParseResponse.
Import BaseChannel.

Lemma parseResponse_allow (text : jsstring) :
  In (toLowerCase (trim text)) allow_words -> parseResponse text = u16 "allow".
Proof.
  intros H. unfold parseResponse. rewrite trim_lower.
  cbn in H. destruct H as [<-|[<-|[<-|[<-|[]]]]]; reflexivity.
Qed.

Lemma parseResponse_deny (text : jsstring) :
  In (toLowerCase (trim text)) deny_words -> parseResponse text = u16 "deny".
Proof.
  intros H. unfold parseResponse. rewrite trim_lower.
  cbn in H. destruct H as [<-|[<-|[<-|[<-|[]]]]]; reflexivity.
Qed.

Lemma parseResponse_other (text : jsstring) :
  ~ In (toLowerCase (trim text)) (allow_words ++ deny_words) ->
  parseResponse text = trim text.
Proof.
  intros H. unfold parseResponse. rewrite trim_lower.
  set (w := toLowerCase (trim text)) in *.
  assert (F : forall x, In x (allow_words ++ deny_words) -> (w === x) = false).
  { intros x Hx. apply strict_eq_false. intros ->. now apply H. }
  rewrite !F by (cbn; tauto). reflexivity.
Qed.

(** C4, as the code has it.  [parseResponse] compares its argument with
    the eight words after removing the white space around it and ignoring
    the case of its letters: the four affirmative words give ["allow"], the
    four negative ones ["deny"], and every other text comes back with the
    white space around it removed, its characters otherwise unchanged. *)
Theorem parseResponse_normalizes (text : jsstring) :
  (In (toLowerCase (trim text)) allow_words -> parseResponse text = u16 "allow")
  /\ (In (toLowerCase (trim text)) deny_words -> parseResponse text = u16 "deny")
  /\ (~ In (toLowerCase (trim text)) (allow_words ++ deny_words) ->
      parseResponse text = trim text).
Proof.
  split; [|split].
  - apply parseResponse_allow.
  - apply parseResponse_deny.
  - apply parseResponse_other.
Qed.

Lemma parseResponse_normalizes_witness :
  parseResponse (u16 " YeS ") = u16 "allow"
  /\ parseResponse (u16 "No") = u16 "deny"
  /\ parseResponse (u16 "  do it Differently ") = u16 "do it Differently".
Proof.
  split; [|split].
  - apply (proj1 (parseResponse_normalizes (u16 " YeS "))).
    vm_compute. tauto.
  - apply (proj1 (proj2 (parseResponse_normalizes (u16 "No")))).
    vm_compute. tauto.
  - apply (proj2 (proj2 (parseResponse_normalizes (u16 "  do it Differently ")))).
    vm_compute. intros H. repeat destruct H as [H|H]; try discriminate H. exact H.
Defined.

(** C4, as the claim states it, fails: a text that is none of the eight
    words, in any case, does not pass through unchanged when white space
    surrounds it. *)
Lemma parseResponse_not_verbatim :
  ~ In (toLowerCase (u16 " later ")) (allow_words ++ deny_words)
  /\ parseResponse (u16 " later ") <> u16 " later ".
Proof.
  split.
  - vm_compute. intros H. repeat destruct H as [H|H]; try discriminate H. exact H.
  - vm_compute. discriminate.
Qed.

(** The examples of the specification. *)
Example parseResponse_examples :
  map parseResponse [u16 "YES"; u16 "yes"; u16 "Y"; glyph_check]
    = repeat (u16 "allow") 4
  /\ map parseResponse [u16 "no"; u16 "NO"; u16 "n"; glyph_cross]
    = repeat (u16 "deny") 4
  /\ parseResponse (u16 "do it differently") = u16 "do it differently".
Proof. repeat split. Qed.

End ParseResponse.

(** ** The Telegram channel *)

Section ChannelFacts.
Import Telegram TelegramChannel.
Context {W : Type}.
Implicit Types (ch : TelegramChannel.t W) (w : W) (table : JsMap.t Z).

(** What the loop of [findRequestIdByMessageId] returns is an entry of
    the table with that message id. *)
Lemma find_entry_In table (message_id : Z) requestId :
  find_entry (toString message_id) table = Some requestId ->
  In (requestId, message_id) table.
Proof.
  induction table as [|[r m] rest IH]; cbn; [discriminate|].
  destruct (toString m === toString message_id) eqn:E.
  - apply strict_eq_true, toString_inj in E as ->. intros [= ->]. now left.
  - intros H. right. now apply IH.
Qed.

Lemma find_entry_None table (message_id : Z) requestId :
  find_entry (toString message_id) table = None ->
  ~ In (requestId, message_id) table.
Proof.
  induction table as [|[r m] rest IH]; cbn; [tauto|].
  destruct (toString m === toString message_id) eqn:E; [discriminate|].
  apply strict_eq_false in E.
  intros H [[= -> ->]|Hin]; [now apply E | now apply IH].
Qed.

(** After [set], the message id is found: under the key just set when no
    other request holds the same message id. *)
Lemma find_entry_set table requestId (message_id : Z) :
  (exists r, find_entry (toString message_id)
               (JsMap.set requestId message_id table) = Some r)
  /\ ((forall r, In (r, message_id) table -> r = requestId) ->
      find_entry (toString message_id) (JsMap.set requestId message_id table)
      = Some requestId).
Proof.
  induction table as [|[r0 m0] rest [IHe IHu]]; cbn.
  - rewrite strict_eq_refl. eauto.
  - destruct (r0 === requestId) eqn:E; cbn.
    + rewrite strict_eq_refl. eauto.
    + destruct (toString m0 === toString message_id) eqn:Em.
      * split; [eauto|]. intros U.
        apply strict_eq_true, toString_inj in Em as ->.
        apply strict_eq_false in E. exfalso. apply E, U. now left.
      * split; [exact IHe|]. intros U. apply IHu. intros r Hr. apply U. now right.
Qed.

Lemma find_entry_key table messageId requestId :
  find_entry messageId table = Some requestId ->
  JsMap.get requestId table <> None.
Proof.
  induction table as [|[r m] rest IH]; cbn; [discriminate|].
  destruct (toString m === messageId).
  - intros [= ->]. now rewrite strict_eq_refl.
  - intros H. destruct (r === requestId); [discriminate | now apply IH].
Qed.

(** *** [updateMessage] *)

Lemma updateMessage_returns ch messageId content fetched :
  fst (fst (updateMessage messageId content fetched ch)) = Return tt.
Proof.
  unfold updateMessage.
  destruct (JsMap.get messageId (pendingMessageIds ch)) as [m|]; [|reflexivity].
  destruct (number_truthy m); [|reflexivity].
  now destruct fetched.
Qed.

(** With a non-zero message id in the table, the edit is requested and,
    whatever becomes of it, the entry is deleted: no message id leads to
    that request any more. *)
Lemma updateMessage_known ch messageId content fetched (m : Z) :
  JsMap.get messageId (pendingMessageIds ch) = Some m -> m <> 0 ->
  updateMessage messageId content fetched ch
  = (Return tt,
     with_pendingMessageIds (JsMap.delete messageId (pendingMessageIds ch)) ch,
     [editMessageText (chatId (config ch)) m content (config_parseMode (config ch))]).
Proof.
  intros H Hm. unfold updateMessage. rewrite H.
  unfold number_truthy. apply Z.eqb_neq in Hm. rewrite Hm. cbn.
  now destruct fetched.
Qed.

Lemma deleted_never_matched ch messageId x :
  findRequestIdByMessageId
    (with_pendingMessageIds (JsMap.delete messageId (pendingMessageIds ch)) ch) x
  <> Some messageId.
Proof.
  unfold findRequestIdByMessageId. cbn. intros H.
  apply find_entry_key in H. apply H, get_delete_eq.
Qed.

(** C10.  [updateMessage] with an id that has no entry in the correlation
    table returns at once: no request is made and the channel is as it was,
    whatever the content and whatever an edit would have done. *)
Theorem updateMessage_unknown_id ch messageId content fetched :
  JsMap.get messageId (pendingMessageIds ch) = None ->
  updateMessage messageId content fetched ch = (Return tt, ch, []).
Proof. intros H. unfold updateMessage. now rewrite H. Qed.

(** *** [handleUpdate] on a matched update *)

Lemma handleUpdate_reply ch update msg text (reply_to : Z) requestId fetched w :
  callback_query update = None -> message update = Some msg ->
  Telegram.text msg = Some text -> text <> [] ->
  reply_to_message msg = Some reply_to ->
  findRequestIdByMessageId ch (toString reply_to) = Some requestId ->
  requestId <> [] ->
  handleUpdate ch update fetched w
  = (Return tt,
     BaseChannel.notifyResponse (responseCallbacks ch) requestId
       (BaseChannel.parseResponse text) w,
     []).
Proof.
  intros Hq Hm Ht Hne Hr Hf Hid. unfold handleUpdate.
  rewrite Hq, Hm, Ht, Hr, Hf.
  destruct text; [congruence|]. destruct requestId; [congruence|]. reflexivity.
Qed.

Lemma handleUpdate_callback ch update query (origin chat : Z) payload requestId
  fetched w :
  callback_query update = Some query ->
  query_message query = Some (origin, chat) ->
  data query = Some payload -> payload <> [] ->
  findRequestIdByMessageId ch (toString origin) = Some requestId ->
  requestId <> [] ->
  handleUpdate ch update fetched w
  = (Return tt,
     BaseChannel.notifyResponse (responseCallbacks ch) requestId
       (BaseChannel.parseResponse payload) w,
     [Telegram.answerCallbackQuery (query_id query)
        (u16 "Response: " ++ BaseChannel.parseResponse payload)]).
Proof.
  intros Hq Hm Hd Hne Hf Hid. unfold handleUpdate, handleCallbackQuery.
  rewrite Hq, Hm, Hd, Hf.
  destruct payload; [congruence|]. destruct requestId; [congruence|].
  cbn. now destruct fetched.
Qed.

(** *** [sendPermissionRequest] *)

(** C2, as the code has it.  When the Bot API accepts the message and
    numbers it [message_id], [sendPermissionRequest] returns the id of the
    request itself, not that number, and has by then put the pair of the
    request id and [message_id] into the correlation table.  The table
    then yields a request for [message_id]; it yields this request when no
    other entry holds the same message id, and then a text reply to, or a
    callback from, that message calls the subscribers with the request id
    and the normalised decision, the request id being a non-empty string. *)
Theorem sendPermissionRequest_registers ch request (message_id : Z) description :
  let id := PermissionRequest.id request in
  let fetched :=
    Return {| ok := true; result := Some message_id; description := description |} in
  let ch' :=
    with_pendingMessageIds (JsMap.set id message_id (pendingMessageIds ch)) ch in
  sendPermissionRequest request fetched ch
  = (Return id, ch',
     [sendMessage (chatId (config ch)) (BaseChannel.formatPermissionMessage request)
        (config_parseMode (config ch)) (Some permission_keyboard)])
  /\ JsMap.get id (pendingMessageIds ch') = Some message_id
  /\ (exists r, findRequestIdByMessageId ch' (toString message_id) = Some r)
  /\ ((forall r, In (r, message_id) (pendingMessageIds ch) -> r = id) ->
      id <> [] ->
      findRequestIdByMessageId ch' (toString message_id) = Some id
      /\ (forall update msg text fetched' w,
            callback_query update = None -> message update = Some msg ->
            Telegram.text msg = Some text -> text <> [] ->
            reply_to_message msg = Some message_id ->
            handleUpdate ch' update fetched' w
            = (Return tt,
               BaseChannel.notifyResponse (responseCallbacks ch) id
                 (BaseChannel.parseResponse text) w,
               []))
      /\ (forall update query chat payload fetched' w,
            callback_query update = Some query ->
            query_message query = Some (message_id, chat) ->
            data query = Some payload -> payload <> [] ->
            handleUpdate ch' update fetched' w
            = (Return tt,
               BaseChannel.notifyResponse (responseCallbacks ch) id
                 (BaseChannel.parseResponse payload) w,
               [Telegram.answerCallbackQuery (query_id query)
                  (u16 "Response: " ++ BaseChannel.parseResponse payload)]))).
Proof.
  intros id fetched ch'.
  destruct (find_entry_set (pendingMessageIds ch) id message_id) as [He Hu].
  split; [reflexivity|]. split; [apply get_set_eq|]. split; [exact He|].
  intros U Hid. specialize (Hu U).
  split; [exact Hu|]. split.
  - intros update msg text fetched' w Hq Hm Ht Hne Hr.
    now apply (handleUpdate_reply ch' update msg text message_id id).
  - intros update query chat payload fetched' w Hq Hm Hd Hne.
    now apply (handleUpdate_callback ch' update query message_id chat payload id).
Qed.

(** *** [handleUpdate] on an update that matches nothing *)

(** C3, as the code has it.  An update whose callback origin or reply
    target is not in the correlation table, or that has neither, is
    dropped by [handleUpdate]: no subscriber is called, no request is made,
    the call returns normally, and the channel, which [handleUpdate] never
    changes, holds no reference to a Remote Dispatcher to hand the update
    to. *)
Theorem handleUpdate_drops_uncorrelated ch update :
  correlated ch update = None -> dropped ch update.
Proof.
  unfold correlated, target, dropped, handleUpdate, handleCallbackQuery.
  intros H fetched w.
  destruct (callback_query update) as [query|].
  - destruct (query_message query) as [[origin chat]|]; [|reflexivity].
    rewrite H. destruct (data query) as [payload|]; [|reflexivity].
    now destruct (truthy payload).
  - destruct (message update) as [msg|]; [|reflexivity].
    destruct (Telegram.text msg) as [text|]; [|reflexivity].
    destruct (reply_to_message msg) as [reply_to|]; [|reflexivity].
    rewrite H. now destruct (truthy text).
Qed.

End ChannelFacts.

Lemma updateMessage_unknown_id_witness :
  TelegramChannel.updateMessage (u16 "perm_2") (u16 "done")
    (Throw (new_Error (u16 "network"))) Sample.channel
  = (Return tt, Sample.channel, []).
Proof. apply updateMessage_unknown_id. reflexivity. Defined.

Lemma sendPermissionRequest_registers_witness :
  let ch' :=
    TelegramChannel.with_pendingMessageIds [(u16 "perm_1", 42)] Sample.fresh_channel in
  TelegramChannel.handleUpdate ch' (Sample.reply_to 42 "deny") (Return tt) []
  = (Return tt, [(u16 "perm_1", u16 "deny")], []).
Proof.
  refine (proj1 (proj2
    (proj2 (proj2 (proj2
       (sendPermissionRequest_registers Sample.fresh_channel
          (Sample.request "perm_1") 42 None))) _ _))
    (Sample.reply_to 42 "deny") _ (u16 "deny") (Return tt) []
    eq_refl eq_refl eq_refl _ eq_refl).
  - cbn. tauto.
  - discriminate.
  - discriminate.
Defined.

(** C2, as the claim states it, fails: what [sendPermissionRequest]
    returns is the request id, not the message id the channel assigned. *)
Lemma sendPermissionRequest_returns_request_id :
  fst (fst (TelegramChannel.sendPermissionRequest (Sample.request "perm_1")
              (Sample.sent 42) Sample.fresh_channel))
  = Return (u16 "perm_1")
  /\ Return (u16 "perm_1") <> Return (A := jsstring) (toString 42).
Proof. split; [reflexivity|]. vm_compute. discriminate. Qed.

(** C7 at a message numbered 0.  The Bot API answers a send with
    [message_id] 0; the entry is in the table, yet [updateMessage] returns
    without an edit and without deleting it, and a later reply to that
    message is still matched to the request. *)
Theorem updateMessage_keeps_zero_message_id :
  let ch :=
    snd (fst (TelegramChannel.sendPermissionRequest (Sample.request "perm_1")
                (Sample.sent 0) Sample.fresh_channel)) in
  JsMap.get (u16 "perm_1") (TelegramChannel.pendingMessageIds ch) = Some 0
  /\ (forall content fetched,
        TelegramChannel.updateMessage (u16 "perm_1") content fetched ch
        = (Return tt, ch, []))
  /\ TelegramChannel.findRequestIdByMessageId ch (toString 0) = Some (u16 "perm_1")
  /\ TelegramChannel.handleUpdate ch (Sample.reply_to 0 "deny") (Return tt) []
     = (Return tt, [(u16 "perm_1", u16 "deny")], []).
Proof. repeat split. Qed.

Lemma handleUpdate_drops_uncorrelated_witness :
  TelegramChannel.handleUpdate Sample.channel Sample.stray_reply (Return tt) []
  = (Return tt, [], []).
Proof.
  apply (handleUpdate_drops_uncorrelated Sample.channel Sample.stray_reply).
  reflexivity.
Defined.

(** C3, as the claim states it, fails: a text that replies to nothing
    reaches neither the logging subscriber nor the Bot API; the channel
    drops it. *)
Lemma unsolicited_text_is_dropped :
  TelegramChannel.target Sample.plain_text = None
  /\ TelegramChannel.correlated Sample.channel Sample.plain_text = None
  /\ TelegramChannel.dropped Sample.channel Sample.plain_text
  /\ TelegramChannel.handleUpdate Sample.channel Sample.plain_text (Return tt) []
     = (Return tt, [], []).
Proof. repeat split. Qed.

(** ** The permission handler *)

Section HandlerFacts.
Import PermissionHandler.

Lemma In_set_new {V} (m : JsMap.t V) k v : In (k, v) (JsMap.set k v m).
Proof.
  induction m as [|[k' v'] r IH]; cbn; [now left|].
  destruct (k' === k); [now left | now right].
Qed.

(** What [await responsePromise] throws, the [catch] block throws again
    after its call of [updateMessage]. *)
Lemma resume_rejected a fetched fetched' h error :
  promise_state (snd (world h)) (responsePromise a) = Some (Rejected error) ->
  let edit :=
    TelegramChannel.updateMessage (PermissionRequest.id (request a))
      (timeout_text (PermissionRequest.tool (request a))) fetched (channel h) in
  handlePermissionRequest_resume a fetched fetched' h
  = Some (Throw error, {| channel := snd (fst edit); world := world h |}, snd edit).
Proof.
  intros H edit. unfold handlePermissionRequest_resume. rewrite H.
  unfold on_catch. fold edit.
  pose proof (updateMessage_returns (channel h)
                (PermissionRequest.id (request a))
                (timeout_text (PermissionRequest.tool (request a))) fetched) as R.
  fold edit in R. destruct edit as [[done ch'] calls]. cbn in R. now subst done.
Qed.

(** The awaited promise after the request was sent: fresh, pending, held
    by the entry of the request and by its timer, the last one armed. *)
Lemma send_then_fail tool args sessionId clock (m : Z) description h :
  let sent :=
    handlePermissionRequest_send tool args sessionId clock
      (Return {| Telegram.ok := true; Telegram.result := Some m;
                 Telegram.description := description |}) h in
  let p := length (promises (snd (world h))) in
  let h1 := snd (fst sent) in
  (exists a, fst (fst sent) = Return a
             /\ responsePromise a = p
             /\ PermissionRequest.id (request a) = generateId clock
             /\ PermissionRequest.tool (request a) = tool)
  /\ JsMap.get (generateId clock) (TelegramChannel.pendingMessageIds (channel h1))
     = Some m
  /\ promise_state
       (snd (PendingRequestsStore.step (world h1)
               (PendingRequestsStore.EvTimeout (length (timers (snd (world h)))))))
       p
     = Some (Rejected (PendingRequestsStore.timeout_error (generateId clock)))
  /\ promise_state
       (snd (PendingRequestsStore.step (world h1) PendingRequestsStore.EvClear)) p
     = Some (Rejected PendingRequestsStore.cleared_error).
Proof.
  destruct h as [ch [st el]]. cbn zeta.
  remember (generateId clock) as id eqn:Hid.
  unfold handlePermissionRequest_send, TelegramChannel.sendPermissionRequest,
    PendingRequestsStore.add.
  cbn [Telegram.ok Telegram.result world channel fst snd
       PermissionRequest.id PermissionRequest.tool PermissionRequest.timestamp
       PendingRequest.id request responsePromise
       TelegramChannel.pendingMessageIds TelegramChannel.with_pendingMessageIds
       PendingRequestsStore.step PendingRequestsStore.clear
       PendingRequestsStore.requests promises timers].
  rewrite <- Hid.
  split; [eexists; repeat split; now rewrite <- Hid|]. split; [apply get_set_eq|].
  unfold promise_state. split.
  - unfold PendingRequestsStore.timeoutExpire.
    cbn [timers promises].
    rewrite list_lookup_middle by reflexivity.
    unfold PendingRequestsStore.on_timeout, JsMap.has.
    cbn [timer_request_id timer_reject PendingRequestsStore.requests].
    rewrite get_set_eq.
    cbn [snd settle_in promises].
    apply settle_pending. now apply list_lookup_middle.
  - cbn [snd]. apply reject_all_rejects_handle.
    + apply in_map_iff. eexists. split; [|apply In_values; eexists; apply In_set_new].
      reflexivity.
    + cbn [promises]. now apply list_lookup_middle.
Qed.

(** The catch block.  When the promise the handler awaits is rejected with
    [error], be it the timeout of the store or its clearing, the handler
    calls [updateMessage] for its request with a text that ends in "No
    response received.", that call returns normally whatever the edit does,
    and the handler then throws [error] itself: it returns no decision.
    The edit is requested, for the message the request was sent as, when
    the channel holds a non-zero message id for the request; at message id
    0 it is not. *)
Theorem handlePermissionRequest_rethrows
  (a : Awaiting) (fetched fetched' : Completion unit) (h : t) (error : Error) :
  promise_state (snd (world h)) (responsePromise a) = Some (Rejected error) ->
  let id := PermissionRequest.id (request a) in
  let content := timeout_text (PermissionRequest.tool (request a)) in
  let edit := TelegramChannel.updateMessage id content fetched (channel h) in
  fst (fst edit) = Return tt
  /\ handlePermissionRequest_resume a fetched fetched' h
     = Some (Throw error, {| channel := snd (fst edit); world := world h |}, snd edit)
  /\ (exists before, content = before ++ u16 "No response received.")
  /\ (forall m : Z,
        JsMap.get id (TelegramChannel.pendingMessageIds (channel h)) = Some m ->
        m <> 0 ->
        snd edit
        = [Telegram.editMessageText (chatId (TelegramChannel.config (channel h)))
             m content (config_parseMode (TelegramChannel.config (channel h)))]).
Proof.
  intros H id content edit.
  split; [apply updateMessage_returns|].
  split; [now apply resume_rejected|].
  split; [unfold content, timeout_text; rewrite !app_assoc; eauto|].
  intros m Hm Hz. unfold edit.
  now rewrite (updateMessage_known _ _ _ _ m Hm Hz).
Qed.

End HandlerFacts.

Lemma handlePermissionRequest_rethrows_witness :
  exists h' calls,
    PermissionHandler.handlePermissionRequest_resume Sample.awaiting
      (Throw (new_Error (u16 "network"))) (Return tt) Sample.timed_out_handler
    = Some (Throw (PendingRequestsStore.timeout_error
                     (PermissionHandler.generateId Sample.clock)),
            h', calls).
Proof.
  eexists. eexists.
  apply (proj1 (proj2 (handlePermissionRequest_rethrows Sample.awaiting
                         (Throw (new_Error (u16 "network"))) (Return tt)
                         Sample.timed_out_handler _ eq_refl))).
Defined.

(** C6.  The request for [bash] is sent and the Bot API numbers its message
    0; the channel holds that number for the request.  When the awaited
    promise then fails, by the timer of the store or by its clearing, the
    handler throws that same error and returns no decision, but it asks
    for no edit at all: its call of [updateMessage] returns at
    [if (!telegramMsgId) return;], so the message still shows the request
    and the channel still holds the entry.  When the message is numbered
    42 the same failure leads to one [editMessageText] request with the
    text ending in "No response received." before the error is thrown. *)
Theorem handlePermissionRequest_no_edit_at_zero_message_id
  (fetched fetched' : Completion unit) :
  let id := PermissionHandler.generateId Sample.clock in
  fst (fst (PermissionHandler.handlePermissionRequest_send (u16 "bash")
              (JsOther (u16 "{}")) (u16 "ses_1") Sample.clock (Sample.sent 0)
              Sample.handler))
  = Return Sample.awaiting
  /\ JsMap.get id
       (TelegramChannel.pendingMessageIds
          (PermissionHandler.channel Sample.zero_waiting_handler))
     = Some 0
  /\ PermissionHandler.handlePermissionRequest_resume Sample.awaiting
       fetched fetched' Sample.zero_timed_out_handler
     = Some (Throw (PendingRequestsStore.timeout_error id),
             Sample.zero_timed_out_handler, [])
  /\ PermissionHandler.handlePermissionRequest_resume Sample.awaiting
       fetched fetched' Sample.zero_cleared_handler
     = Some (Throw PendingRequestsStore.cleared_error,
             Sample.zero_cleared_handler, [])
  /\ PermissionHandler.handlePermissionRequest_resume Sample.awaiting
       fetched fetched' Sample.timed_out_handler
     = Some (Throw (PendingRequestsStore.timeout_error id),
             {| PermissionHandler.channel :=
                  TelegramChannel.with_pendingMessageIds []
                    (PermissionHandler.channel Sample.timed_out_handler);
                PermissionHandler.world :=
                  PermissionHandler.world Sample.timed_out_handler |},
             [Telegram.editMessageText (chatId Sample.config) 42
                (PermissionHandler.timeout_text (u16 "bash"))
                (config_parseMode Sample.config)]).
Proof.
  cbv zeta. repeat split.
  destruct fetched; reflexivity.
Qed.

(** ** The remote controller *)

Section RemoteFacts.
Import RemoteController.
Context {W : Type}.
Implicit Types (rc : RemoteController.t W) (out : Outside).

Lemma channel_send_spec text out rc :
  channel_send text out rc
  = (TelegramChannel.send_completion (fetched out), rc,
     [api (Telegram.sendMessage (chatId (TelegramChannel.config (channel rc)))
             text Markdown None)]).
Proof. reflexivity. Qed.

Lemma handleIncoming_command rc out message raw :
  enabled rc = true -> trim (text message) = u16 "/" ++ raw ->
  handleIncoming message out rc = handleCommand raw out rc.
Proof.
  intros He Ht. unfold handleIncoming. rewrite He, Ht.
  change (u16 "/" ++ raw) with (47%N :: raw).
  change (u16 "/") with [47%N]. cbn [negb truthy startsWith].
  rewrite N.eqb_refl. reflexivity.
Qed.

Lemma handleCommand_use rc out raw prefix rest :
  split_ws (trim raw) = u16 "use" :: prefix :: rest ->
  handleCommand raw out rc = setActiveSession prefix out rc.
Proof. intros H. unfold handleCommand. rewrite H. reflexivity. Qed.

(** C8.  The controller is enabled and receives [/use <prefix> ...]; the
    host lists its sessions.  With no session id starting with the prefix
    the controller sends "Session not found" and stays as it was; with more
    than one it sends "Multiple matches" and stays as it was; with exactly
    one it makes that id the active session, writes the state to its file
    and sends the confirmation.  In each case the calls are the listing
    and the one message. *)
Theorem use_command_selects_unique_prefix
  rc out message (raw prefix : jsstring) (rest : list jsstring)
  (data : option (list Session)) :
  enabled rc = true ->
  trim (text message) = u16 "/" ++ raw ->
  split_ws (trim raw) = u16 "use" :: prefix :: rest ->
  listed out = Return data ->
  let sessions := match data with Some l => l | None => [] end in
  let matches :=
    List.filter (fun session => startsWith (id session) prefix) sessions in
  let done := TelegramChannel.send_completion (fetched out) in
  let say text :=
    [ session_list (directory rc);
      api (Telegram.sendMessage (chatId (TelegramChannel.config (channel rc)))
             text Markdown None) ] in
  (matches = [] ->
     handleIncoming message out rc
     = (done, rc,
        say (u16 "Session not found. Use `/list` to see recent sessions.")))
  /\ ((1 < length matches)%nat ->
     handleIncoming message out rc
     = (done, rc, say (u16 "Multiple matches. Use a longer session ID prefix.")))
  /\ (forall session, matches = [session] ->
     let store' :=
       ChannelsStateStore.setActiveSessionId (Some (id session)) (stateStore rc) in
     handleIncoming message out rc
     = (done, with_stateStore store' rc,
        say (u16 "Active session set to " ++ backtick
             ++ slice_to 8 (id session) ++ backtick))
     /\ ChannelsStateStore.getActiveSessionId store' = Some (id session)
     /\ ChannelsStateStore.file store' = Some (ChannelsStateStore.state store')).
Proof.
  intros He Ht Hs Hl sessions matches done say.
  rewrite (handleIncoming_command rc out message raw He Ht).
  rewrite (handleCommand_use rc out raw prefix rest Hs).
  unfold setActiveSession. rewrite Hl. fold sessions. fold matches.
  split; [|split].
  - intros ->. reflexivity.
  - destruct matches as [|s1 [|s2 more]]; cbn; try lia. reflexivity.
  - intros session Hm. rewrite Hm. cbn zeta.
    split; [reflexivity|]. split; [|reflexivity].
    assert (Hin : In session matches) by (rewrite Hm; now left).
    apply filter_In in Hin as [_ Hp].
    pose proof (split_ws_trim_fields raw _ _ _ Hs) as F.
    apply Forall_cons_iff in F as [_ F]. apply Forall_cons_iff in F as [Hpre _].
    pose proof (startsWith_nonempty _ _ Hp Hpre) as Hid.
    unfold ChannelsStateStore.setActiveSessionId,
      ChannelsStateStore.getActiveSessionId. cbn.
    destruct (id session); [congruence | reflexivity].
Qed.

(** C9.  The controller is enabled and has no active session; the text,
    once trimmed, is not empty and does not begin with a slash.  Then the
    controller sends the message that asks for a session to be chosen, and
    that is its only call: the host's prompt endpoint is not called.  The
    controller itself is unchanged. *)
Theorem free_text_without_session rc out message :
  enabled rc = true ->
  trim (text message) <> [] ->
  startsWith (trim (text message)) (u16 "/") = false ->
  truthy_opt (ChannelsStateStore.getActiveSessionId (stateStore rc)) = false ->
  handleIncoming message out rc
  = (TelegramChannel.send_completion (fetched out), rc,
     [api (Telegram.sendMessage (chatId (TelegramChannel.config (channel rc)))
             (u16 "No active session. Use `/list` then `/use <sessionId>`.")
             Markdown None)])
  /\ prompt_calls (snd (handleIncoming message out rc)) = [].
Proof.
  intros He Hne Hslash Hnone.
  assert (E : handleIncoming message out rc
              = channel_send
                  (u16 "No active session. Use `/list` then `/use <sessionId>`.")
                  out rc).
  { unfold handleIncoming. rewrite He, Hslash.
    destruct (trim (text message)); [congruence|]. cbn [negb truthy].
    destruct (ChannelsStateStore.getActiveSessionId (stateStore rc)) as [sid|];
      [|reflexivity].
    cbn in Hnone. now rewrite Hnone. }
  rewrite E, channel_send_spec. split; reflexivity.
Qed.

End RemoteFacts.

Lemma use_command_selects_unique_prefix_witness :
  ChannelsStateStore.getActiveSessionId
    (RemoteController.stateStore
       (snd (fst (RemoteController.handleIncoming (Sample.incoming " /use ses_abc ")
                    Sample.outside Sample.controller))))
  = Some (u16 "ses_abcd1").
Proof.
  pose proof (proj2 (proj2
    (use_command_selects_unique_prefix Sample.controller Sample.outside
       (Sample.incoming " /use ses_abc ") (u16 "use ses_abc") (u16 "ses_abc") []
       (Some Sample.sessions) eq_refl eq_refl eq_refl eq_refl))
    {| RemoteController.id := u16 "ses_abcd1"; RemoteController.title := u16 "one";
       RemoteController.time_updated := 30 |} eq_refl) as [H _].
  rewrite H. reflexivity.
Defined.

Lemma free_text_without_session_witness :
  RemoteController.prompt_calls
    (snd (RemoteController.handleIncoming (Sample.incoming "run the tests")
            Sample.outside Sample.controller)) = [].
Proof.
  apply (free_text_without_session Sample.controller Sample.outside
           (Sample.incoming "run the tests")); try reflexivity.
  discriminate.
Defined.

(** The other two outcomes of [/use] on the sample sessions. *)
Example use_command_examples :
  let reply (text : string) :=
    snd (RemoteController.handleIncoming (Sample.incoming text) Sample.outside
           Sample.controller) in
  let said (text : string) :=
    [ RemoteController.session_list (u16 "/work");
      RemoteController.api
        (Telegram.sendMessage (u16 "1001") (u16 text) Markdown None) ] in
  reply "/use ses_ab"%string
  = said "Multiple matches. Use a longer session ID prefix."%string
  /\ reply "/use nope"%string
     = said "Session not found. Use `/list` to see recent sessions."%string
  /\ reply "/use ses_xy"%string = said "Active session set to `ses_xy00`"%string.
Proof. repeat split. Qed.

(** ** The scenario of the specification, end to end *)

(** A request for [bash] is sent and numbered 42; a reply to message 42
    with the text "deny" arrives; the awaited promise is fulfilled with
    "deny"; the handler edits message 42 to show the denial and returns
    "deny"; the correlation table no longer holds the request. *)
Example deny_scenario :
  let world1 :=
    fst (TelegramChannel.handleUpdate
           (PermissionHandler.channel Sample.waiting_handler)
           (Sample.reply_to 42 "deny") (Return tt)
           (PermissionHandler.world Sample.waiting_handler)) in
  let h1 :=
    {| PermissionHandler.channel := PermissionHandler.channel Sample.waiting_handler;
       PermissionHandler.world := snd world1 |} in
  fst world1 = Return tt
  /\ promise_state (snd (snd world1)) 0%nat = Some (Fulfilled (u16 "deny"))
  /\ exists h2,
       PermissionHandler.handlePermissionRequest_resume Sample.awaiting
         (Return tt) (Return tt) h1
       = Some (Return (u16 "deny"), h2,
               [Telegram.editMessageText (u16 "1001") 42
                  (PermissionHandler.granted_text (u16 "bash") (u16 "deny"))
                  Markdown])
       /\ TelegramChannel.pendingMessageIds (PermissionHandler.channel h2) = [].
Proof.
  split; [reflexivity|]. split; [reflexivity|].
  eexists. split; reflexivity.
Qed.

Example split_ws_examples :
  split_ws (u16 "use  ab c") = [u16 "use"; u16 "ab"; u16 "c"]
  /\ split_ws (u16 " a ") = [[]; u16 "a"; []]
  /\ split_ws [] = [[]].
Proof. repeat split. Qed.

Example toString_examples :
  toString (-42) = u16 "-42" /\ toString 0 = u16 "0" /\ toString 1700 = u16 "1700".
Proof. repeat split. Qed.

(* ===================================================================== *)
(** * Further properties of the code *)
(* ===================================================================== *)

(** ** The store: registration, completion and what timers do *)

Section StoreMore.
Import PendingRequestsStore.
Implicit Types (s : State) (st : t) (el : EventLoop).

Lemma delete_absent {V} (m : JsMap.t V) k :
  JsMap.get k m = None -> JsMap.delete k m = m.
Proof.
  induction m as [|[k' v'] r IH]; cbn; [reflexivity|].
  destruct (k' === k); [discriminate|]. intros H. now rewrite IH.
Qed.

Lemma delete_set_fresh {V} (m : JsMap.t V) k v :
  JsMap.get k m = None -> JsMap.delete k (JsMap.set k v m) = m.
Proof.
  induction m as [|[k' v'] r IH]; cbn.
  - now rewrite strict_eq_refl.
  - destruct (k' === k) eqn:E; [discriminate|]. cbn. rewrite E.
    intros H. now rewrite IH.
Qed.

Lemma size_set {V} (m : JsMap.t V) k v :
  JsMap.size (JsMap.set k v m)
  = if JsMap.has k m then JsMap.size m else S (JsMap.size m).
Proof.
  unfold JsMap.has, JsMap.size.
  induction m as [|[k' v'] r IH]; cbn; [reflexivity|].
  destruct (k' === k); cbn; [reflexivity|].
  rewrite IH. now destruct (JsMap.get k r).
Qed.

Lemma delete_middle {A} (l r : list A) (a : A) :
  delete (length l) (l ++ a :: r) = l ++ r.
Proof. induction l as [|x l IH]; [reflexivity|]. cbn. f_equal. exact IH. Qed.

(** X1.  [add] files the request under its id with a fresh pending promise
    and arms one timer for it; every other id is as before, and the map
    grows by one entry exactly when the id was not there. *)
Theorem add_registers_request request st el :
  let id := PendingRequest.id request in
  let p := length (promises el) in
  let '(handle, st', el') := add request st el in
  handle = p
  /\ get id st'
     = Some {| PendingRequest.request := request;
               PendingRequest.resolver := p; PendingRequest.rejecter := p |}
  /\ (forall other, other <> id -> get other st' = get other st)
  /\ JsMap.size (requests st')
     = (if has id st then JsMap.size (requests st)
        else S (JsMap.size (requests st)))
  /\ promise_state el' p = Some Pending
  /\ (forall q x, promise_state el q = Some x -> promise_state el' q = Some x)
  /\ timers el'
     = timers el ++ [ {| timer_request_id := id; timer_reject := p;
                         timer_ms := timeoutMs st |} ].
Proof.
  cbn. unfold get, has, promise_state. cbn.
  split; [reflexivity|]. split; [apply get_set_eq|].
  split; [intros other H; apply get_set_ne; congruence|].
  split; [apply size_set|].
  split; [now apply list_lookup_middle|].
  split; [|reflexivity]. intros q x H. now apply lookup_app_l_Some.
Qed.

(** X2.  In a state of a history, [resolve] for a registered id returns
    [true], fulfils the promise of that request with the response, and
    leaves every other promise, every other entry and the timers alone. *)
Theorem resolve_fulfils_only_its_promise timeout history id e response :
  let s := run (initial timeout) history in
  get id (fst s) = Some e ->
  let '(found, st', el') := resolve id response (fst s) (snd s) in
  found = true
  /\ get id st' = None
  /\ promise_state el' (PendingRequest.resolver e) = Some (Fulfilled response)
  /\ (forall q, q <> PendingRequest.resolver e ->
        promise_state el' q = promise_state (snd s) q)
  /\ (forall other, other <> id -> get other st' = get other (fst s))
  /\ timers el' = timers (snd s).
Proof.
  intros s H. pose proof (wf_history timeout history) as W. fold s in W.
  destruct s as [st el]. unfold get in *. cbn [fst snd] in *.
  unfold resolve. rewrite H. unfold promise_state. cbn.
  split; [reflexivity|]. split; [apply get_delete_eq|]. split.
  - apply settle_pending. apply get_In in H.
    destruct (wf_entry _ W id e H) as (_ & B & C). rewrite B. exact C.
  - split; [intros q Hq; apply settle_other; congruence|].
    split; [|reflexivity]. intros other Ho. apply get_delete_ne. congruence.
Qed.

Lemma resolve_fulfils_only_its_promise_witness :
  fst (fst (resolve (u16 "r2") (u16 "allow")
              (fst Sample.two_pending) (snd Sample.two_pending))) = true.
Proof.
  pose proof (resolve_fulfils_only_its_promise None
                [EvAdd (Sample.info "r1"); EvAdd (Sample.info "r2")]
                (u16 "r2")
                {| PendingRequest.request := Sample.info "r2";
                   PendingRequest.resolver := 1%nat;
                   PendingRequest.rejecter := 1%nat |}
                (u16 "allow") eq_refl) as H.
  cbv zeta in H.
  destruct (resolve _ _ _ _) as [[found st'] el'] eqn:E in H.
  destruct H as [H _].
  change Sample.two_pending
    with (run (initial None) [EvAdd (Sample.info "r1"); EvAdd (Sample.info "r2")]).
  rewrite E. exact H.
Defined.

Lemma empty_store_timer st el k :
  requests st = JsMap.empty ->
  requests (fst (timeoutExpire k st el)) = JsMap.empty
  /\ promises (snd (timeoutExpire k st el)) = promises el.
Proof.
  intros H. unfold timeoutExpire.
  destruct (timers el !! k) as [tm|]; [|now split].
  unfold on_timeout. rewrite H. cbn. now split.
Qed.

(** X3.  [clear] disarms no timer: the timers of the cleared requests stay
    armed.  When they fire, and whenever a timer fires while the map is
    empty, neither the map nor any promise changes. *)
Theorem timers_after_clear_do_nothing st el (ks : list nat) :
  let cleared := clear st el in
  let s' := run cleared (map EvTimeout ks) in
  timers (snd cleared) = timers el
  /\ requests (fst s') = JsMap.empty
  /\ promises (snd s') = promises (snd cleared).
Proof.
  cbn zeta. split; [apply reject_all_timers|].
  assert (G : forall s, requests (fst s) = JsMap.empty ->
              requests (fst (run s (map EvTimeout ks))) = JsMap.empty
              /\ promises (snd (run s (map EvTimeout ks))) = promises (snd s)).
  { induction ks as [|k ks IH]; intros [st0 el0] H0; [now split|].
    cbn [fst] in H0. destruct (empty_store_timer st0 el0 k H0) as [A B].
    destruct (IH (timeoutExpire k st0 el0) A) as [A' B'].
    change (run (st0, el0) (map EvTimeout (k :: ks)))
      with (run (timeoutExpire k st0 el0) (map EvTimeout ks)).
    split; [exact A'|]. now rewrite B', B. }
  now apply G.
Qed.

(** X4.  Registering the same id twice.  The second [add] replaces the entry,
    but the timer of the first is still armed: when it fires it deletes the
    entry of the second request and rejects the promise of the first.  The
    promise of the second request is then pending with nothing left to
    settle it: its own timer finds no entry, and [resolve] finds none. *)
Theorem second_registration_is_orphaned request request' st el :
  PendingRequest.id request = PendingRequest.id request' ->
  let id := PendingRequest.id request in
  let p := length (promises el) in
  let k := length (timers el) in
  let s2 := run (st, el) [EvAdd request; EvAdd request'] in
  let s3 := step s2 (EvTimeout k) in
  let s4 := step s3 (EvTimeout k) in
  get id (fst s2)
  = Some {| PendingRequest.request := request';
            PendingRequest.resolver := S p; PendingRequest.rejecter := S p |}
  /\ has id (fst s3) = false
  /\ outcome s3 p = Some (Rejected (timeout_error id))
  /\ outcome s3 (S p) = Some Pending
  /\ outcome s4 (S p) = Some Pending
  /\ timers (snd s4) = timers el
  /\ forall response,
       resolve id response (fst s4) (snd s4) = (false, fst s4, snd s4).
Proof.
  intros Hid id p k s2 s3 s4.
  assert (E2 : s2 =
    ({| requests :=
          JsMap.set id {| PendingRequest.request := request';
                          PendingRequest.resolver := S p;
                          PendingRequest.rejecter := S p |}
            (JsMap.set id {| PendingRequest.request := request;
                             PendingRequest.resolver := p;
                             PendingRequest.rejecter := p |} (requests st));
        timeoutMs := timeoutMs st |},
     {| promises := (promises el ++ [Pending]) ++ [Pending];
        timers := (timers el ++ [ {| timer_request_id := id; timer_reject := p;
                                     timer_ms := timeoutMs st |} ])
                  ++ [ {| timer_request_id := id; timer_reject := S p;
                          timer_ms := timeoutMs st |} ] |})).
  { unfold s2, run. cbn. unfold id, p. rewrite <- Hid.
    rewrite length_app. cbn. now rewrite Nat.add_1_r. }
  assert (Hp : ((promises el ++ [Pending]) ++ [Pending]) !! p = Some Pending).
  { apply lookup_app_l_Some. now apply list_lookup_middle. }
  assert (Hq : ((promises el ++ [Pending]) ++ [Pending]) !! S p = Some Pending).
  { apply list_lookup_middle. rewrite length_app. cbn. unfold p. lia. }
  assert (Hk : forall (a b : Timer), ((timers el ++ [a]) ++ [b]) !! k = Some a).
  { intros a b. apply lookup_app_l_Some. now apply list_lookup_middle. }
  assert (Hdel : forall (a b : Timer),
             delete k ((timers el ++ [a]) ++ [b]) = timers el ++ [b]).
  { intros a b. rewrite <- app_assoc. apply delete_middle. }
  assert (E3 : s3 =
    ({| requests := JsMap.delete id (requests (fst s2)); timeoutMs := timeoutMs st |},
     {| promises := settle p (Rejected (timeout_error id))
                      ((promises el ++ [Pending]) ++ [Pending]);
        timers := timers el ++ [ {| timer_request_id := id; timer_reject := S p;
                                    timer_ms := timeoutMs st |} ] |})).
  { unfold s3. rewrite E2. cbn [step fst snd requests]. unfold timeoutExpire.
    cbn [timers promises]. rewrite Hk, Hdel.
    unfold on_timeout, JsMap.has. cbn [timer_request_id timer_reject requests].
    rewrite get_set_eq. reflexivity. }
  assert (H3 : has id (fst s3) = false).
  { rewrite E3. unfold has. cbn [fst requests]. apply has_delete. }
  assert (E4 : s4 =
    (fst s3, {| promises := promises (snd s3); timers := timers el |})).
  { unfold s4. destruct s3 as [st3 el3] eqn:D3. cbn [step fst snd].
    injection E3 as Est Eel. unfold timeoutExpire. rewrite Eel. cbn [timers promises].
    rewrite list_lookup_middle by reflexivity.
    unfold on_timeout. cbn [timer_request_id].
    unfold has in H3. cbn [fst] in H3. rewrite H3.
    f_equal. f_equal. unfold k. rewrite delete_middle. apply app_nil_r. }
  split.
  { rewrite E2. unfold get. cbn [fst requests]. apply get_set_eq. }
  split; [exact H3|].
  assert (O3p : outcome s3 p = Some (Rejected (timeout_error id))).
  { rewrite E3. unfold outcome, promise_state. cbn [snd promises].
    now apply settle_pending. }
  assert (O3q : outcome s3 (S p) = Some Pending).
  { rewrite E3. unfold outcome, promise_state. cbn [snd promises].
    rewrite settle_other by lia. exact Hq. }
  split; [exact O3p|]. split; [exact O3q|].
  split; [rewrite E4; exact O3q|].
  split; [rewrite E4; reflexivity|].
  intros response. apply resolve_absent. rewrite E4. exact H3.
Qed.

Lemma second_registration_is_orphaned_witness :
  outcome
    (run (initial None)
       [EvAdd (Sample.info "r1"); EvAdd (Sample.info "r1");
        EvTimeout 0%nat; EvTimeout 0%nat]) 1%nat
  = Some Pending.
Proof.
  exact (proj1 (proj2 (proj2 (proj2 (proj2
    (second_registration_is_orphaned (Sample.info "r1") (Sample.info "r1")
       (new None) {| promises := []; timers := [] |} eq_refl)))))).
Defined.

(** X5.  For an id that is not in the map, [add] followed by the firing of
    the timer it armed puts the map back as it was and rejects the new
    promise with the error "Permission request timeout: <id>". *)
Theorem add_then_timeout_restores_map request st el :
  has (PendingRequest.id request) st = false ->
  let id := PendingRequest.id request in
  let s' := run (st, el) [EvAdd request; EvTimeout (length (timers el))] in
  requests (fst s') = requests st
  /\ timers (snd s') = timers el
  /\ outcome s' (length (promises el))
     = Some (Rejected (new_Error (u16 "Permission request timeout: " ++ id))).
Proof.
  intros Hfresh id s'. unfold has in Hfresh. apply has_false in Hfresh.
  unfold s', run. cbn [fold_left step add]. unfold timeoutExpire.
  cbn [timers promises]. rewrite list_lookup_middle by reflexivity.
  unfold on_timeout, JsMap.has. cbn [timer_request_id timer_reject requests].
  rewrite get_set_eq. cbn [fst snd requests settle_in timers promises].
  split; [now apply delete_set_fresh|]. split.
  - rewrite delete_middle. apply app_nil_r.
  - unfold outcome, promise_state. cbn [snd promises].
    apply settle_pending. now apply list_lookup_middle.
Qed.

Lemma add_then_timeout_restores_map_witness :
  requests
    (fst (run Sample.two_pending [EvAdd (Sample.info "r3"); EvTimeout 2%nat]))
  = requests (fst Sample.two_pending).
Proof.
  exact (proj1 (add_then_timeout_restores_map (Sample.info "r3")
                  (fst Sample.two_pending) (snd Sample.two_pending) eq_refl)).
Defined.

End StoreMore.

Lemma add_registers_request_witness :
  PendingRequestsStore.get (u16 "r1")
    (snd (fst (PendingRequestsStore.add (Sample.info "r3")
                 (fst Sample.two_pending) (snd Sample.two_pending))))
  = PendingRequestsStore.get (u16 "r1") (fst Sample.two_pending).
Proof.
  pose proof (add_registers_request (Sample.info "r3")
                (fst Sample.two_pending) (snd Sample.two_pending)) as H.
  cbv zeta in H.
  destruct (PendingRequestsStore.add _ _ _) as [[handle st'] el'].
  destruct H as (_ & _ & H & _). apply H. discriminate.
Defined.

(** ** Normalisation and formatting in the base channel *)

Section BaseMore.
Import BaseChannel.

Lemma trimStart_id (s : jsstring) :
  (forall c r, s = c :: r -> is_ws c = false) -> trimStart s = s.
Proof.
  destruct s as [|c r]; [reflexivity|]. intros H. cbn.
  now rewrite (H c r eq_refl).
Qed.

Lemma trim_idempotent (s : jsstring) : trim (trim s) = trim s.
Proof.
  destruct (trim_ends s) as [Hhead Hlast].
  unfold trim at 1. rewrite (trimStart_id _ Hhead). unfold trimEnd.
  rewrite trimStart_id; [apply rev_involutive|].
  intros c r H. apply (Hlast (rev r) c).
  rewrite <- (rev_involutive (trim s)), H. reflexivity.
Qed.

Lemma word_of_trimmed (text : jsstring) :
  trim (toLowerCase (trim text)) = trim (toLowerCase text).
Proof. now rewrite !trim_lower, trim_idempotent. Qed.

(** X6.  The decision is ["allow"] exactly for the four affirmative words and
    ["deny"] exactly for the four negative ones, case and surrounding
    white space aside: no other text, not even one that contains such a
    word, is taken for a decision. *)
Theorem parseResponse_decides_exactly (text : jsstring) :
  (parseResponse text = u16 "allow" <-> In (toLowerCase (trim text)) allow_words)
  /\ (parseResponse text = u16 "deny" <-> In (toLowerCase (trim text)) deny_words).
Proof.
  assert (Hw : trim (toLowerCase text) = toLowerCase (trim text))
    by apply trim_lower.
  split; (split; [|first [apply parseResponse_allow | apply parseResponse_deny]]).
  - unfold parseResponse. rewrite Hw.
    remember (toLowerCase (trim text)) as w eqn:Ew.
    destruct (w === u16 "allow") eqn:E1;
      [apply strict_eq_true in E1; intros _; rewrite E1; cbn; tauto|].
    destruct (w === u16 "yes") eqn:E2;
      [apply strict_eq_true in E2; intros _; rewrite E2; cbn; tauto|].
    destruct (w === u16 "y") eqn:E3;
      [apply strict_eq_true in E3; intros _; rewrite E3; cbn; tauto|].
    destruct (w === glyph_check) eqn:E4;
      [apply strict_eq_true in E4; intros _; rewrite E4; cbn; tauto|].
    cbn [orb].
    destruct (_ || _)%bool; [discriminate|].
    intros H. exfalso. apply strict_eq_false in E1. apply E1.
    rewrite Ew, H. reflexivity.
  - unfold parseResponse. rewrite Hw.
    remember (toLowerCase (trim text)) as w eqn:Ew.
    destruct (_ || _)%bool; [discriminate|].
    destruct (w === u16 "deny") eqn:E1;
      [apply strict_eq_true in E1; intros _; rewrite E1; cbn; tauto|].
    destruct (w === u16 "no") eqn:E2;
      [apply strict_eq_true in E2; intros _; rewrite E2; cbn; tauto|].
    destruct (w === u16 "n") eqn:E3;
      [apply strict_eq_true in E3; intros _; rewrite E3; cbn; tauto|].
    destruct (w === glyph_cross) eqn:E4;
      [apply strict_eq_true in E4; intros _; rewrite E4; cbn; tauto|].
    cbn [orb].
    intros H. exfalso. apply strict_eq_false in E1. apply E1.
    rewrite Ew, H. reflexivity.
Qed.

(** X7.  Normalising twice is normalising once, and what comes out has no
    white space at either end. *)
Theorem parseResponse_idempotent (text : jsstring) :
  parseResponse (parseResponse text) = parseResponse text
  /\ trim (parseResponse text) = parseResponse text.
Proof.
  assert (C : parseResponse text = u16 "allow" \/ parseResponse text = u16 "deny"
              \/ (parseResponse text = trim text
                  /\ parseResponse (trim text) = trim text)).
  { unfold parseResponse. rewrite word_of_trimmed.
    destruct (_ || _)%bool; [now left|].
    destruct (_ || _)%bool; [right; now left|].
    right. right. split; [reflexivity | apply trim_idempotent]. }
  destruct C as [->|[->|[-> H]]]; [split; reflexivity .. |].
  split; [exact H | apply trim_idempotent].
Qed.

(** X8.  The permission message is 87 code units of fixed text, the tool name
    and the arguments, of which at most 500 code units are shown, then
    followed by three dots: the message never exceeds 590 code units plus
    the tool name. *)
Theorem formatPermissionMessage_length (request : PermissionRequest.t) :
  let argsStr :=
    match PermissionRequest.args request with
    | JsText s => s
    | JsOther pretty => pretty
    end in
  length (formatPermissionMessage request)
  = (87 + length (PermissionRequest.tool request)
     + (if (500 <? length argsStr)%nat then 503 else length argsStr))%nat
  /\ (length (formatPermissionMessage request)
      <= 590 + length (PermissionRequest.tool request))%nat.
Proof.
  intros argsStr. unfold formatPermissionMessage. fold argsStr.
  assert (E : length (if (500 <? length argsStr)%nat
                      then slice_to 500 argsStr ++ u16 "..." else argsStr)
              = if (500 <? length argsStr)%nat then 503%nat else length argsStr).
  { destruct (500 <? length argsStr)%nat eqn:L; [|reflexivity].
    apply Nat.ltb_lt in L. unfold slice_to.
    rewrite length_app, length_take.
    change (length (u16 "...")) with 3%nat.
    rewrite Nat.min_l by lia. reflexivity. }
  set (shown := if (500 <? length argsStr)%nat
                then slice_to 500 argsStr ++ u16 "..." else argsStr) in *.
  assert (F : length (join newline
                 [glyph_bell ++ u16 " *Permission Required*"; [];
                  u16 "*Tool:* " ++ backtick ++ PermissionRequest.tool request
                    ++ backtick;
                  []; u16 "```"; shown; u16 "```"; [];
                  u16 "_Reply: " ++ glyph_check ++ u16 " allow | " ++ glyph_cross
                    ++ u16 " deny | custom text_"])
              = (87 + length (PermissionRequest.tool request) + length shown)%nat).
  { cbn [join]. rewrite !length_app.
    change (length (u16 "```")) with 3%nat.
    change (length newline) with 1%nat.
    change (length backtick) with 1%nat.
    change (length (u16 "*Tool:* ")) with 8%nat.
    change (length glyph_bell) with 2%nat.
    change (length glyph_check) with 1%nat.
    change (length glyph_cross) with 1%nat.
    change (length (u16 " *Permission Required*")) with 22%nat.
    change (length (u16 "_Reply: ")) with 8%nat.
    change (length (u16 " allow | ")) with 9%nat.
    change (length (u16 " deny | custom text_")) with 20%nat.
    change (length (@nil N)) with 0%nat.
    lia. }
  rewrite F, E. split; [reflexivity|].
  destruct (500 <? length argsStr)%nat eqn:L; [lia|].
  apply Nat.ltb_ge in L. lia.
Qed.

End BaseMore.

Lemma parseResponse_decides_exactly_witness :
  BaseChannel.parseResponse (u16 " Y ") = u16 "allow".
Proof.
  apply (proj2 (proj1 (parseResponse_decides_exactly (u16 " Y ")))).
  vm_compute. tauto.
Defined.

(** ** The Telegram channel: updates, the correlation table, the loop *)

Section ChannelMore.
Import Telegram TelegramChannel.
Context {W : Type}.
Implicit Types (ch : TelegramChannel.t W) (w : W) (table : JsMap.t Z).

Lemma handleUpdate_returns ch update fetched w :
  fst (fst (handleUpdate ch update fetched w)) = Return tt.
Proof.
  unfold handleUpdate, handleCallbackQuery, answerCallbackQuery.
  destruct (callback_query update) as [query|].
  - destruct (query_message query) as [[origin chat]|]; [|reflexivity].
    destruct (data query) as [payload|]; [|reflexivity].
    destruct (truthy payload); [|reflexivity]. cbn.
    destruct (findRequestIdByMessageId ch (toString origin)) as [r|]; [|reflexivity].
    destruct (truthy r); [|reflexivity]. now destruct fetched.
  - destruct (message update) as [msg|]; [|reflexivity].
    destruct (Telegram.text msg) as [text|]; [|reflexivity].
    destruct (reply_to_message msg) as [reply_to|]; [|reflexivity].
    destruct (truthy text); [|reflexivity].
    destruct (findRequestIdByMessageId ch (toString reply_to)) as [r|]; [|reflexivity].
    now destruct (truthy r).
Qed.

Ltac nothing_done :=
  cbn; split; [reflexivity | left; split; reflexivity].

(** X9.  Whatever the update and whatever becomes of the answer to a
    callback, [handleUpdate] returns normally.  It either does nothing, or
    it calls the subscribers once with a request id that is in the
    correlation table and a normalised decision; the only request it ever
    makes is the answer to a callback it has matched. *)
Theorem handleUpdate_effects ch update fetched w :
  let '(done, w', calls) := handleUpdate ch update fetched w in
  done = Return tt
  /\ ((w' = w /\ calls = [])
      \/ exists requestId text,
           JsMap.get requestId (pendingMessageIds ch) <> None
           /\ w' = BaseChannel.notifyResponse (responseCallbacks ch) requestId
                     (BaseChannel.parseResponse text) w
           /\ (calls = []
               \/ exists query,
                    callback_query update = Some query
                    /\ data query = Some text
                    /\ calls = [Telegram.answerCallbackQuery (query_id query)
                                  (u16 "Response: "
                                   ++ BaseChannel.parseResponse text)])).
Proof.
  unfold handleUpdate, handleCallbackQuery, answerCallbackQuery.
  destruct (callback_query update) as [query|] eqn:Q.
  - destruct (query_message query) as [[origin chat]|]; [|nothing_done].
    destruct (data query) as [payload|] eqn:D; [|nothing_done].
    destruct (truthy payload); [|nothing_done]. cbn [negb].
    destruct (findRequestIdByMessageId ch (toString origin)) as [r|] eqn:F;
      [|nothing_done].
    destruct (truthy r); [|nothing_done].
    split; [now destruct fetched|]. right. exists r, payload.
    split; [now apply find_entry_key in F|]. split; [reflexivity|].
    right. exists query. now repeat split.
  - destruct (message update) as [msg|]; [|nothing_done].
    destruct (Telegram.text msg) as [text|]; [|nothing_done].
    destruct (reply_to_message msg) as [reply_to|]; [|nothing_done].
    destruct (truthy text); [|nothing_done].
    destruct (findRequestIdByMessageId ch (toString reply_to)) as [r|] eqn:F;
      [|nothing_done].
    destruct (truthy r); [|nothing_done].
    split; [reflexivity|]. right. exists r, text.
    split; [now apply find_entry_key in F|]. split; [reflexivity | now left].
Qed.


(** X11.  With a non-zero message id in the table for the request,
    [updateMessage] asks for the edit of that message and, whatever becomes
    of the edit, returns normally with the entry gone: no message id leads
    to the request any more, and the entries of other requests are as
    before. *)
Theorem updateMessage_finalizes_request ch messageId content fetched (m : Z) :
  JsMap.get messageId (pendingMessageIds ch) = Some m -> m <> 0 ->
  let '(done, ch', calls) := updateMessage messageId content fetched ch in
  done = Return tt
  /\ calls = [editMessageText (chatId (config ch)) m content
                (config_parseMode (config ch))]
  /\ JsMap.get messageId (pendingMessageIds ch') = None
  /\ (forall x, findRequestIdByMessageId ch' x <> Some messageId)
  /\ (forall other, other <> messageId ->
        JsMap.get other (pendingMessageIds ch')
        = JsMap.get other (pendingMessageIds ch)).
Proof.
  intros H Hm. rewrite (updateMessage_known ch messageId content fetched m H Hm).
  split; [reflexivity|]. split; [reflexivity|]. cbn.
  split; [apply get_delete_eq|]. split; [apply deleted_never_matched|].
  intros other Ho. apply get_delete_ne. congruence.
Qed.

(** X12.  A request that is sent and then finalised leaves the channel as it
    was: for an id that was not in the table and a non-zero message id,
    [updateMessage] undoes the registration of [sendPermissionRequest]. *)
Theorem send_then_update_restores_channel ch request (m : Z) description
  content fetched :
  JsMap.get (PermissionRequest.id request) (pendingMessageIds ch) = None ->
  m <> 0 ->
  let sent :=
    sendPermissionRequest request
      (Return {| ok := true; result := Some m; description := description |}) ch in
  snd (fst (updateMessage (PermissionRequest.id request) content fetched
              (snd (fst sent)))) = ch.
Proof.
  intros Hfresh Hm. cbn zeta. unfold sendPermissionRequest. cbn [ok result fst snd].
  rewrite (updateMessage_known _ _ content fetched m);
    [|cbn; apply get_set_eq | exact Hm].
  cbn. rewrite (delete_set_fresh _ _ _ Hfresh). now destruct ch.
Qed.

Lemma In_get_NoDup table k (v : Z) :
  List.NoDup (JsMap.keys table) -> In (k, v) table -> JsMap.get k table = Some v.
Proof.
  induction table as [|[k' v'] r IH]; cbn; [tauto|].
  change (JsMap.keys ((k', v') :: r)) with (k' :: JsMap.keys r).
  rewrite NoDup_cons_iff. intros [Hn Hr] [[= -> ->]|H].
  - now rewrite strict_eq_refl.
  - destruct (k' === k) eqn:E; [|now apply IH].
    apply strict_eq_true in E as ->. exfalso. apply Hn.
    unfold JsMap.keys. apply in_map_iff. now exists (k, v).
Qed.

(** X13.  When no two requests of the table hold the same message id, the
    search by message id is the inverse of the lookup by request id. *)
Theorem findRequestIdByMessageId_inverts_lookup ch requestId (message_id : Z) :
  List.NoDup (JsMap.keys (pendingMessageIds ch)) ->
  (forall r r' x, In (r, x) (pendingMessageIds ch) ->
                  In (r', x) (pendingMessageIds ch) -> r = r') ->
  findRequestIdByMessageId ch (toString message_id) = Some requestId
  <-> JsMap.get requestId (pendingMessageIds ch) = Some message_id.
Proof.
  intros Hk Hinj. unfold findRequestIdByMessageId. split.
  - intros H. apply find_entry_In in H. now apply In_get_NoDup.
  - intros H. apply get_In in H.
    destruct (find_entry (toString message_id) (pendingMessageIds ch)) as [r'|] eqn:F.
    + f_equal. apply find_entry_In in F. now apply (Hinj r' requestId message_id).
    + exfalso. now apply (find_entry_None _ _ requestId F).
Qed.

(** *** The receive loop *)

Lemma handle_updates_spec updates answered : forall ch w,
  let '(done, ch', w', calls) := handle_updates updates answered ch w in
  done = Return tt
  /\ lastUpdateId ch'
     = match last updates with
       | Some update => update_id update + 1
       | None => lastUpdateId ch
       end
  /\ pendingMessageIds ch' = pendingMessageIds ch
  /\ responseCallbacks ch' = responseCallbacks ch
  /\ config ch' = config ch
  /\ pollingActive ch' = pollingActive ch.
Proof.
  induction updates as [|update rest IH]; intros ch w; [now cbn|].
  cbn [handle_updates].
  set (ch1 := with_lastUpdateId (update_id update + 1) ch).
  pose proof (handleUpdate_returns ch1 update (answered update) w) as R.
  destruct (handleUpdate ch1 update (answered update) w) as [[done1 w1] calls1].
  cbn in R. subst done1.
  specialize (IH ch1 w1).
  destruct (handle_updates rest answered ch1 w1) as [[[done ch2] w2] calls2].
  destruct IH as (A & B & C & D & E & F).
  split; [exact A|]. split; [|now split; [|split; [|split]]].
  rewrite B. destruct rest as [|u rest']; [reflexivity|].
  rewrite last_cons_cons.
  destruct (last (u :: rest')) eqn:L; [reflexivity|].
  apply last_None in L. discriminate L.
Qed.

(** X14.  A batch of updates is always handled to the end: the loop over it
    returns normally, the cursor ends one past the id of the last update of
    the batch (and stays when the batch is empty), and neither the
    correlation table nor the subscribers change. *)
Theorem handle_updates_advances_cursor updates answered ch w :
  let '(done, ch', w', calls) := handle_updates updates answered ch w in
  done = Return tt
  /\ lastUpdateId ch'
     = match last updates with
       | Some update => update_id update + 1
       | None => lastUpdateId ch
       end
  /\ pendingMessageIds ch' = pendingMessageIds ch
  /\ responseCallbacks ch' = responseCallbacks ch.
Proof.
  pose proof (handle_updates_spec updates answered ch w) as H.
  destruct (handle_updates updates answered ch w) as [[[done ch'] w'] calls].
  tauto.
Qed.

(** X15.  One round of the loop.  When [getUpdates] fails, nothing changes and
    no further request is made: the loop ends on an [AbortError] and
    otherwise sleeps five seconds.  When it succeeds, the loop goes on at
    once, and the next [getUpdates] asks from one past the last update
    received, so that no update of the batch is delivered again. *)
Theorem poll_round_outcome fetched answered ch w fetched' :
  let '(step, ch', w', request, calls) := poll_round fetched answered ch w in
  poll_offset request = lastUpdateId ch
  /\ match fst (getUpdates fetched ch) with
     | Throw error =>
         ch' = ch /\ w' = w /\ calls = []
         /\ step = (if error_name error === u16 "AbortError"
                    then PollBreak else PollSleep 5000)
     | Return updates =>
         step = PollAgain
         /\ poll_offset (snd (getUpdates fetched' ch'))
            = match last updates with
              | Some update => update_id update + 1
              | None => lastUpdateId ch
              end
     end.
Proof.
  unfold poll_round.
  destruct (getUpdates fetched ch) as [got request] eqn:G.
  assert (Hreq : poll_offset request = lastUpdateId ch).
  { unfold getUpdates in G. destruct fetched as [data|e].
    - destruct (negb (ok data)); now injection G as _ <-.
    - now injection G as _ <-. }
  cbn [fst]. destruct got as [updates|error].
  - pose proof (handle_updates_spec updates answered ch w) as H.
    destruct (handle_updates updates answered ch w) as [[[done ch'] w'] calls].
    destruct H as (-> & B & _). split; [exact Hreq|]. split; [reflexivity|].
    rewrite <- B. unfold getUpdates.
    destruct fetched' as [data|e]; [destruct (negb (ok data))|]; reflexivity.
  - split; [exact Hreq|]. now repeat split.
Qed.

End ChannelMore.

Lemma updateMessage_finalizes_request_witness :
  fst (fst (TelegramChannel.updateMessage (u16 "perm_1") (u16 "done")
              (Throw (new_Error (u16 "network"))) Sample.channel))
  = Return tt.
Proof.
  pose proof (updateMessage_finalizes_request Sample.channel (u16 "perm_1")
                (u16 "done") (Throw (new_Error (u16 "network"))) 42 eq_refl) as H.
  destruct (TelegramChannel.updateMessage _ _ _ _) as [[done ch'] calls].
  apply H. discriminate.
Defined.

Lemma send_then_update_restores_channel_witness :
  snd (fst (TelegramChannel.updateMessage (u16 "perm_2") (u16 "done") (Return tt)
              (snd (fst (TelegramChannel.sendPermissionRequest
                           (Sample.request "perm_2") (Sample.sent 43)
                           Sample.channel)))))
  = Sample.channel.
Proof.
  apply (send_then_update_restores_channel Sample.channel
           (Sample.request "perm_2") 43 None (u16 "done") (Return tt) eq_refl).
  discriminate.
Defined.

Lemma findRequestIdByMessageId_inverts_lookup_witness :
  TelegramChannel.findRequestIdByMessageId Sample.channel (toString 42)
  = Some (u16 "perm_1").
Proof.
  apply (findRequestIdByMessageId_inverts_lookup Sample.channel (u16 "perm_1") 42).
  - repeat constructor. cbn. tauto.
  - cbn. intros r r' x [[= <- _]|[]] [[= <- _]|[]]. reflexivity.
  - reflexivity.
Defined.

(** ** The permission handler: ids, registration, decisions *)

Section HandlerMore.
Import PermissionHandler.

(** *** Request ids *)

Lemma u16_app (a b : string) : u16 (a ++ b) = u16 a ++ u16 b.
Proof. induction a as [|c a IH]; cbn; [reflexivity|]. now rewrite IH. Qed.

Lemma uint_no_underscore (d : Decimal.uint) :
  ~ In 95%N (u16 (NilEmpty.string_of_uint d)).
Proof.
  induction d; cbn; [tauto | ..]; intros [H|H]; (discriminate H || tauto).
Qed.

Lemma toString_no_underscore (n : Z) : ~ In 95%N (toString n).
Proof.
  unfold toString.
  assert (U : forall d, ~ In 95%N (u16 (NilZero.string_of_uint d))).
  { intros d. destruct d; try apply uint_no_underscore.
    cbn. intros [H|[]]. discriminate H. }
  destruct (Z.to_int n) as [d|d]; cbn [NilZero.string_of_int]; [apply U|].
  cbn. intros [H|H]; [discriminate H | now apply (U d)].
Qed.

Lemma split_at_first {A} (x : A) (l1 l2 r1 r2 : list A) :
  ~ In x l1 -> ~ In x l2 -> l1 ++ x :: r1 = l2 ++ x :: r2 -> l1 = l2 /\ r1 = r2.
Proof.
  revert l2. induction l1 as [|a l1 IH]; intros [|b l2]; cbn; intros H1 H2 E.
  - injection E as ->. now split.
  - injection E as -> _. tauto.
  - injection E as -> _. tauto.
  - injection E as -> E. destruct (IH l2) as [-> ->]; tauto.
Qed.

(** X16.  An id is never the empty string, and two ids are equal only when both
    the time and the random suffix they were made from are equal. *)
Theorem generateId_injective (clock clock' : Clock) :
  generateId clock <> []
  /\ (generateId clock = generateId clock' ->
      id_now clock = id_now clock' /\ id_random clock = id_random clock').
Proof.
  split; [discriminate|].
  unfold generateId. intros E. apply app_inv_head in E.
  change (u16 "_" ++ id_random clock) with (95%N :: id_random clock) in E.
  change (u16 "_" ++ id_random clock') with (95%N :: id_random clock') in E.
  apply split_at_first in E as [E1 E2]; try apply toString_no_underscore.
  split; [now apply toString_inj | exact E2].
Qed.

Lemma generateId_injective_witness :
  id_now Sample.clock = id_now Sample.clock
  /\ id_random Sample.clock = id_random Sample.clock.
Proof.
  exact (proj2 (generateId_injective Sample.clock Sample.clock) eq_refl).
Defined.

(** *** Sending *)


(** *** Resuming *)

Lemma resume_fulfilled a fetched fetched' h response :
  promise_state (snd (world h)) (responsePromise a) = Some (Fulfilled response) ->
  let edit :=
    TelegramChannel.updateMessage (PermissionRequest.id (request a))
      (granted_text (PermissionRequest.tool (request a)) response)
      fetched (channel h) in
  handlePermissionRequest_resume a fetched fetched' h
  = Some (Return response, {| channel := snd (fst edit); world := world h |},
          snd edit).
Proof.
  intros H edit. unfold handlePermissionRequest_resume. rewrite H. fold edit.
  pose proof (updateMessage_returns (channel h)
                (PermissionRequest.id (request a))
                (granted_text (PermissionRequest.tool (request a)) response)
                fetched) as R.
  fold edit in R. destruct edit as [[done ch'] calls]. cbn in R. now subst done.
Qed.

(** X18.  When the awaited promise is fulfilled, the handler returns the
    response as it is, whatever it says and whatever becomes of the edit;
    the store is left alone.  With a non-zero message id in the table for
    the request, the edit of that message is requested, with a text that
    ends in the response, and the entry leaves the table. *)
Theorem handlePermissionRequest_returns_decision
  (a : Awaiting) (fetched fetched' : Completion unit) (h : t)
  (response : PermissionResponse) (m : Z) :
  promise_state (snd (world h)) (responsePromise a) = Some (Fulfilled response) ->
  JsMap.get (PermissionRequest.id (request a))
    (TelegramChannel.pendingMessageIds (channel h)) = Some m ->
  m <> 0 ->
  let content := granted_text (PermissionRequest.tool (request a)) response in
  exists h',
    handlePermissionRequest_resume a fetched fetched' h
    = Some (Return response, h',
            [Telegram.editMessageText (chatId (TelegramChannel.config (channel h)))
               m content (config_parseMode (TelegramChannel.config (channel h)))])
    /\ world h' = world h
    /\ JsMap.get (PermissionRequest.id (request a))
         (TelegramChannel.pendingMessageIds (channel h')) = None
    /\ exists before, content = before ++ u16 "Response: " ++ response.
Proof.
  intros H Hm Hz content.
  rewrite (resume_fulfilled a fetched fetched' h response H).
  rewrite (updateMessage_known _ _ _ fetched m Hm Hz). cbn [fst snd].
  eexists. split; [reflexivity|]. split; [reflexivity|].
  split; [cbn; apply get_delete_eq|].
  unfold content, granted_text. rewrite !app_assoc. eexists.
  rewrite <- (app_assoc _ (u16 "Response: ") response). reflexivity.
Qed.

(** *** Late and repeated answers *)

Lemma handleResponse_removes id response (w : World) :
  PendingRequestsStore.has id (fst (handleResponse id response w)) = false.
Proof.
  destruct w as [st el].
  apply (step_attempt_removes (st, el) (PendingRequestsStore.EvResolve id response) id).
  cbn. apply strict_eq_refl.
Qed.

Lemma handleResponse_absent id response (w : World) :
  PendingRequestsStore.has id (fst w) = false -> handleResponse id response w = w.
Proof.
  intros H. unfold handleResponse. rewrite (resolve_absent _ _ _ _ H).
  now destruct w.
Qed.

(** X19.  An answer counts once.  After [handleResponse] for an id, a second
    answer for it changes nothing; and an update that points at the message
    of a request that is no longer in the store, a repeated reply or a late
    click, leaves the store, the promises and the timers as they are. *)
Theorem repeated_answer_changes_nothing
  (ch : TelegramChannel.t World) id update fetched (w : World) :
  (forall response response',
     handleResponse id response' (handleResponse id response w)
     = handleResponse id response w)
  /\ (TelegramChannel.responseCallbacks ch = [handleResponse] ->
      TelegramChannel.correlated ch update = Some id ->
      PendingRequestsStore.has id (fst w) = false ->
      snd (fst (TelegramChannel.handleUpdate ch update fetched w)) = w).
Proof.
  split.
  - intros response response'. apply handleResponse_absent, handleResponse_removes.
  - intros Hcb Hc Habs.
    unfold TelegramChannel.correlated, TelegramChannel.target in Hc.
    unfold TelegramChannel.handleUpdate, TelegramChannel.handleCallbackQuery,
      TelegramChannel.answerCallbackQuery.
    destruct (Telegram.callback_query update) as [query|].
    + destruct (Telegram.query_message query) as [[origin chat]|]; [|discriminate].
      rewrite Hc. destruct (Telegram.data query) as [payload|]; [|reflexivity].
      destruct (truthy payload); [|reflexivity]. cbn [negb].
      destruct (truthy id); [|reflexivity].
      cbn. rewrite Hcb. cbn. now apply handleResponse_absent.
    + destruct (Telegram.message update) as [msg|]; [|discriminate].
      destruct (Telegram.reply_to_message msg) as [reply_to|]; [|discriminate].
      rewrite Hc. destruct (Telegram.text msg) as [text|]; [|reflexivity].
      destruct (truthy text); [|reflexivity].
      destruct (truthy id); [|reflexivity].
      cbn. rewrite Hcb. cbn. now apply handleResponse_absent.
Qed.

(** *** From the request to the decision *)

(** X20.  The round trip.  The handler, sole subscriber of its channel, sends a
    request that the Bot API numbers [m], a number no other request of the
    table holds; a text reply to message [m] then fulfils the awaited
    promise with the normalised text and takes the request out of the
    store, and the handler, resumed, edits message [m] and returns that
    decision. *)
Theorem reply_resolves_request tool args sessionId clock (m : Z) description h
  update msg text fetched fetched1 fetched2 :
  TelegramChannel.responseCallbacks (channel h) = [handleResponse] ->
  (forall r, In (r, m) (TelegramChannel.pendingMessageIds (channel h)) ->
             r = generateId clock) ->
  m <> 0 ->
  Telegram.callback_query update = None -> Telegram.message update = Some msg ->
  Telegram.text msg = Some text -> text <> [] ->
  Telegram.reply_to_message msg = Some m ->
  let sent :=
    handlePermissionRequest_send tool args sessionId clock
      (Return {| Telegram.ok := true; Telegram.result := Some m;
                 Telegram.description := description |}) h in
  let h1 := snd (fst sent) in
  let p := length (promises (snd (world h))) in
  let decision := BaseChannel.parseResponse text in
  let w2 :=
    snd (fst (TelegramChannel.handleUpdate (channel h1) update fetched (world h1))) in
  promise_state (snd w2) p = Some (Fulfilled decision)
  /\ PendingRequestsStore.has (generateId clock) (fst w2) = false
  /\ exists a h3,
       fst (fst sent) = Return a
       /\ handlePermissionRequest_resume a fetched1 fetched2
            {| channel := channel h1; world := w2 |}
          = Some (Return decision, h3,
                  [Telegram.editMessageText
                     (chatId (TelegramChannel.config (channel h))) m
                     (granted_text tool decision)
                     (config_parseMode (TelegramChannel.config (channel h)))]).
Proof.
  intros Hcb Huniq Hm Hq Hmsg Htext Hne Hreply.
  assert (Hid : generateId clock <> []) by discriminate.
  destruct h as [ch [st el]]. cbn [channel world] in *. cbn zeta.
  remember (generateId clock) as id eqn:Eid.
  unfold handlePermissionRequest_send, TelegramChannel.sendPermissionRequest,
    PendingRequestsStore.add.
  cbn [Telegram.ok Telegram.result world channel fst snd
       PermissionRequest.id PermissionRequest.tool PermissionRequest.timestamp
       PendingRequest.id request responsePromise promises timers].
  rewrite <- Eid.
  set (ch1 := TelegramChannel.with_pendingMessageIds
                (JsMap.set id m (TelegramChannel.pendingMessageIds ch)) ch).
  set (pending := {| PendingRequest.request := _;
                     PendingRequest.resolver := length (promises el);
                     PendingRequest.rejecter := length (promises el) |}).
  set (st1 := {| PendingRequestsStore.requests :=
                   JsMap.set id pending (PendingRequestsStore.requests st);
                 PendingRequestsStore.timeoutMs := PendingRequestsStore.timeoutMs st |}).
  set (el1 := {| promises := promises el ++ [Pending]; timers := _ |}).
  assert (Hfind : TelegramChannel.findRequestIdByMessageId ch1 (toString m) = Some id).
  { unfold TelegramChannel.findRequestIdByMessageId, ch1. cbn.
    now apply (proj2 (find_entry_set (TelegramChannel.pendingMessageIds ch) id m)). }
  set (w2 := ({| PendingRequestsStore.requests :=
                   JsMap.delete id (PendingRequestsStore.requests st1);
                 PendingRequestsStore.timeoutMs := PendingRequestsStore.timeoutMs st1 |},
              settle_in (length (promises el))
                (Fulfilled (BaseChannel.parseResponse text)) el1)).
  assert (Ew : snd (fst (TelegramChannel.handleUpdate ch1 update fetched (st1, el1)))
               = w2).
  { rewrite (handleUpdate_reply ch1 update msg text m id fetched (st1, el1)
               Hq Hmsg Htext Hne Hreply Hfind Hid).
    cbn [fst snd]. unfold ch1. cbn [TelegramChannel.responseCallbacks
      TelegramChannel.with_pendingMessageIds]. rewrite Hcb.
    cbn [BaseChannel.notifyResponse fold_left].
    unfold handleResponse, PendingRequestsStore.resolve. cbn [fst snd].
    unfold st1 at 1. cbn [PendingRequestsStore.requests]. rewrite get_set_eq.
    reflexivity. }
  rewrite Ew.
  assert (Hp : promise_state (snd w2) (length (promises el))
               = Some (Fulfilled (BaseChannel.parseResponse text))).
  { unfold promise_state, w2, el1. cbn. apply settle_pending.
    now apply list_lookup_middle. }
  split; [exact Hp|]. split.
  { unfold PendingRequestsStore.has, w2. cbn [fst PendingRequestsStore.requests].
    apply has_delete. }
  eexists. eexists. split; [reflexivity|].
  rewrite resume_fulfilled with (response := BaseChannel.parseResponse text);
    [|exact Hp].
  cbn [request PermissionRequest.id PermissionRequest.tool channel].
  rewrite (updateMessage_known ch1 id _ fetched1 m);
    [reflexivity | unfold ch1; cbn; apply get_set_eq | exact Hm].
Qed.

End HandlerMore.

Lemma handlePermissionRequest_returns_decision_witness :
  exists h',
    PermissionHandler.handlePermissionRequest_resume Sample.awaiting
      (Throw (new_Error (u16 "network"))) (Return tt) Sample.answered_handler
    = Some (Return (u16 "deny"), h',
            [Telegram.editMessageText (u16 "1001") 42
               (PermissionHandler.granted_text (u16 "bash") (u16 "deny")) Markdown]).
Proof.
  destruct (handlePermissionRequest_returns_decision Sample.awaiting
              (Throw (new_Error (u16 "network"))) (Return tt)
              Sample.answered_handler (u16 "deny") 42 eq_refl eq_refl)
    as [h' [H _]]; [discriminate|].
  exists h'. exact H.
Defined.

Lemma reply_resolves_request_witness :
  promise_state
    (snd (snd (fst (TelegramChannel.handleUpdate
                      (PermissionHandler.channel Sample.waiting_handler)
                      (Sample.reply_to 42 "No") (Return tt)
                      (PermissionHandler.world Sample.waiting_handler)))))
    0%nat
  = Some (Fulfilled (u16 "deny")).
Proof.
  refine (proj1 (reply_resolves_request (u16 "bash") (JsOther (u16 "{}"))
                   (u16 "ses_1") Sample.clock 42 None Sample.handler
                   (Sample.reply_to 42 "No") _ (u16 "No")
                   (Return tt) (Return tt) (Return tt)
                   eq_refl _ _ eq_refl eq_refl eq_refl _ eq_refl)).
  - cbn. tauto.
  - discriminate.
  - discriminate.
Defined.

Lemma repeated_answer_changes_nothing_witness :
  snd (fst (TelegramChannel.handleUpdate
              (PermissionHandler.channel Sample.answered_handler)
              (Sample.reply_to 42 "allow") (Return tt)
              (PermissionHandler.world Sample.answered_handler)))
  = PermissionHandler.world Sample.answered_handler.
Proof.
  exact (proj2 (repeated_answer_changes_nothing
                  (PermissionHandler.channel Sample.answered_handler)
                  (PermissionHandler.generateId Sample.clock)
                  (Sample.reply_to 42 "allow") (Return tt)
                  (PermissionHandler.world Sample.answered_handler))
           eq_refl eq_refl eq_refl).
Defined.

(** ** The remote controller: what a message can and cannot do *)

Section RemoteMore.
Import RemoteController.
Context {W : Type}.
Implicit Types (rc : RemoteController.t W) (out : Outside).

(** *** The order of the session list *)

Lemma insert_by_updated_perm x l : Permutation (insert_by_updated x l) (x :: l).
Proof.
  induction l as [|y l IH]; cbn; [reflexivity|].
  destruct (time_updated y <? time_updated x); [reflexivity|].
  rewrite IH. apply perm_swap.
Qed.

Lemma insert_by_updated_sorted x l :
  StronglySorted more_recent l -> StronglySorted more_recent (insert_by_updated x l).
Proof.
  induction 1 as [|y l Hl IH Hy]; cbn; [repeat constructor|].
  destruct (time_updated y <? time_updated x) eqn:E.
  - apply Z.ltb_lt in E. constructor; [now constructor|].
    constructor; [unfold more_recent; lia|].
    eapply Forall_impl; [exact Hy|]. unfold more_recent. intros z Hz. cbn in Hz. lia.
  - apply Z.ltb_ge in E. constructor; [exact IH|].
    rewrite insert_by_updated_perm. constructor; [exact E | exact Hy].
Qed.

Lemma insert_by_updated_ties x l (t : Z) :
  StronglySorted more_recent l ->
  List.filter (fun s => time_updated s =? t) (insert_by_updated x l)
  = List.filter (fun s => time_updated s =? t) l
    ++ (if time_updated x =? t then [x] else []).
Proof.
  induction 1 as [|y l Hl IH Hy]; cbn; [reflexivity|].
  destruct (time_updated y <? time_updated x) eqn:E.
  - apply Z.ltb_lt in E. cbn.
    destruct (time_updated x =? t) eqn:Ex; [|now rewrite app_nil_r].
    apply Z.eqb_eq in Ex.
    assert (Hy' : Forall (fun z => (time_updated z =? t) = false) (y :: l)).
    { constructor; [apply Z.eqb_neq; lia|].
      eapply Forall_impl; [exact Hy|]. unfold more_recent. intros z Hz.
      cbn in Hz. apply Z.eqb_neq. lia. }
    assert (F : List.filter (fun s => time_updated s =? t) (y :: l) = []).
    { clear -Hy'. induction Hy' as [|z k Hz Hk IHk]; cbn; [reflexivity|].
      now rewrite Hz. }
    cbn in F. now rewrite F.
  - cbn. rewrite IH. now destruct (time_updated y =? t).
Qed.

Lemma sort_by_updated_acc sessions : forall sorted,
  StronglySorted more_recent sorted ->
  let result := fold_left (fun sorted x => insert_by_updated x sorted) sessions sorted in
  StronglySorted more_recent result
  /\ Permutation result (sorted ++ sessions)
  /\ forall t, List.filter (fun s => time_updated s =? t) result
               = List.filter (fun s => time_updated s =? t) (sorted ++ sessions).
Proof.
  induction sessions as [|x l IH]; intros sorted Hs; cbn.
  - rewrite app_nil_r. repeat split; auto.
  - destruct (IH (insert_by_updated x sorted) (insert_by_updated_sorted x sorted Hs))
      as (A & B & C).
    split; [exact A|]. split.
    + rewrite B, insert_by_updated_perm. cbn. apply Permutation_middle.
    + intros t. rewrite C, !List.filter_app, insert_by_updated_ties by exact Hs.
      cbn. rewrite <- app_assoc. now destruct (time_updated x =? t).
Qed.

(** X21.  [/list] orders the sessions of the host by their time of update, the
    most recent first, sessions updated at the same time staying in the
    order of the host; no session is lost or invented, and each of the five
    it shows is at least as recent as each it leaves out. *)
Theorem session_list_shows_most_recent (sessions : list Session) :
  let sorted := sort_by_updated sessions in
  Permutation sorted sessions
  /\ StronglySorted more_recent sorted
  /\ (forall t, List.filter (fun s => time_updated s =? t) sorted
                = List.filter (fun s => time_updated s =? t) sessions)
  /\ (forall shown hidden,
        In shown (take 5 sorted) -> In hidden (drop 5 sorted) ->
        time_updated hidden <= time_updated shown).
Proof.
  cbn zeta. unfold sort_by_updated.
  destruct (sort_by_updated_acc sessions [] (SSorted_nil _)) as (A & B & C).
  cbn in B, C. split; [exact B|]. split; [exact A|]. split; [exact C|].
  intros shown hidden Hs Hh. rewrite <- (take_drop 5) in A.
  apply (StronglySorted_app_1_elem_of _ _ _ shown hidden A);
    now apply list_elem_of_In.
Qed.

(** *** What [handleIncoming] leaves alone *)

Lemma sendSessionList_frame out rc : snd (fst (sendSessionList out rc)) = rc.
Proof.
  unfold sendSessionList. destruct (listed out) as [data|e]; [|reflexivity].
  destruct (take 5 _); now rewrite channel_send_spec.
Qed.



(** *** Free text with an active session *)

(** X23.  With an active session, text that is not a command goes to the
    prompt endpoint of that session, trimmed, and to nothing else: no
    message is sent when the prompt succeeds.  When the prompt fails, the
    failure is not thrown on but reported in a message, and the call ends
    as that send ends. *)
Theorem free_text_is_forwarded message out rc sid :
  enabled rc = true ->
  trim (text message) <> [] ->
  startsWith (trim (text message)) (u16 "/") = false ->
  ChannelsStateStore.getActiveSessionId (stateStore rc) = Some sid -> sid <> [] ->
  let prompt := session_prompt sid (directory rc) (trim (text message)) in
  match prompted out with
  | Return _ => handleIncoming message out rc = (Return tt, rc, [prompt])
  | Throw error =>
      handleIncoming message out rc
      = (TelegramChannel.send_completion (fetched out), rc,
         [ prompt;
           api (Telegram.sendMessage (chatId (TelegramChannel.config (channel rc)))
                  (glyph_cross ++ u16 " Failed to send message: "
                   ++ String_of_error error) Markdown None) ])
  end.
Proof.
  intros He Hne Hslash Hsid Hs. cbn zeta. unfold handleIncoming.
  rewrite He, Hslash, Hsid.
  destruct (trim (text message)) as [|c r] eqn:T; [congruence|].
  destruct sid; [congruence|]. cbn [negb truthy].
  destruct (prompted out); [reflexivity|].
  now rewrite channel_send_spec.
Qed.

(** *** When the host cannot list its sessions *)

(** X24.  [/list] and [/use <prefix>] do not catch a failure of the session
    listing: the call throws the error of the host, no message is sent and
    the controller is unchanged. *)
Theorem session_list_failure_propagates message out rc raw command args e :
  enabled rc = true ->
  trim (text message) = u16 "/" ++ raw ->
  split_ws (trim raw) = command :: args ->
  command = u16 "list" \/ (command = u16 "use" /\ args <> []) ->
  listed out = Throw e ->
  handleIncoming message out rc = (Throw e, rc, [session_list (directory rc)]).
Proof.
  intros He Ht Hs Hc Hl.
  rewrite (handleIncoming_command rc out message raw He Ht).
  unfold handleCommand. rewrite Hs.
  destruct Hc as [->|[-> Ha]].
  - change (u16 "list" === u16 "help") with false.
    change (u16 "list" === u16 "status") with false.
    change (u16 "list" === u16 "list") with true.
    cbv iota. unfold sendSessionList. now rewrite Hl.
  - destruct args as [|arg args]; [congruence|].
    change (u16 "use" === u16 "help") with false.
    change (u16 "use" === u16 "status") with false.
    change (u16 "use" === u16 "list") with false.
    change (u16 "use" === u16 "use") with true.
    cbv iota. unfold setActiveSession. now rewrite Hl.
Qed.

(** *** Commands the controller does not know *)

(** X25.  A command is known by its exact, lower-case name.  Any other first
    word after the slash, and a slash alone, gets the one answer "Unknown
    command" and nothing else happens; [/use] without an argument gets the
    usage line and the host is not asked for its sessions. *)
Theorem unknown_command_gets_one_reply message out rc raw command args :
  enabled rc = true ->
  trim (text message) = u16 "/" ++ raw ->
  split_ws (trim raw) = command :: args ->
  let say text :=
    (TelegramChannel.send_completion (fetched out), rc,
     [api (Telegram.sendMessage (chatId (TelegramChannel.config (channel rc)))
             text Markdown None)]) in
  (~ In command [u16 "help"; u16 "status"; u16 "list"; u16 "use"] ->
     handleIncoming message out rc = say (u16 "Unknown command. Use `/help`."))
  /\ (command = u16 "use" -> args = [] ->
      handleIncoming message out rc = say (u16 "Usage: `/use <sessionId>`")).
Proof.
  intros He Ht Hs say.
  rewrite (handleIncoming_command rc out message raw He Ht).
  unfold handleCommand. rewrite Hs. split.
  - intros Hn.
    assert (F : forall x, In x [u16 "help"; u16 "status"; u16 "list"; u16 "use"] ->
                          (command === x) = false).
    { intros x Hx. apply strict_eq_false. intros ->. now apply Hn. }
    rewrite !F by (cbn; tauto). now rewrite channel_send_spec.
  - intros -> ->.
    change (u16 "use" === u16 "help") with false.
    change (u16 "use" === u16 "status") with false.
    change (u16 "use" === u16 "list") with false.
    change (u16 "use" === u16 "use") with true.
    cbv iota. now rewrite channel_send_spec.
Qed.

End RemoteMore.

Lemma session_list_shows_most_recent_witness :
  map RemoteController.time_updated
    (RemoteController.sort_by_updated Sample.sessions) = [50; 40; 30]
  /\ forall hidden,
       In hidden (drop 5 (RemoteController.sort_by_updated Sample.sessions)) ->
       RemoteController.time_updated hidden <= 50.
Proof.
  split; [reflexivity|]. intros hidden H.
  apply (proj2 (proj2 (proj2 (session_list_shows_most_recent Sample.sessions)))
           {| RemoteController.id := u16 "ses_abzz2"; RemoteController.title := [];
              RemoteController.time_updated := 50 |} hidden); [|exact H].
  vm_compute. now left.
Defined.

Lemma free_text_is_forwarded_witness :
  RemoteController.handleIncoming (Sample.incoming " run the tests ")
    Sample.outside Sample.active_controller
  = (Return tt, Sample.active_controller,
     [RemoteController.session_prompt (u16 "ses_abcd1") (u16 "/work")
        (u16 "run the tests")]).
Proof.
  apply (free_text_is_forwarded (Sample.incoming " run the tests ") Sample.outside
           Sample.active_controller (u16 "ses_abcd1") eq_refl);
    try reflexivity; discriminate.
Defined.

Lemma session_list_failure_propagates_witness :
  RemoteController.handleIncoming (Sample.incoming "/use ses_abc")
    Sample.failing_outside Sample.controller
  = (Throw (new_Error (u16 "host down")), Sample.controller,
     [RemoteController.session_list (u16 "/work")]).
Proof.
  apply (session_list_failure_propagates (Sample.incoming "/use ses_abc")
           Sample.failing_outside Sample.controller (u16 "use ses_abc")
           (u16 "use") [u16 "ses_abc"] _ eq_refl eq_refl eq_refl);
    [|reflexivity].
  right. split; [reflexivity | discriminate].
Defined.

Lemma unknown_command_gets_one_reply_witness :
  RemoteController.handleIncoming (Sample.incoming "/Help me") Sample.outside
    Sample.controller
  = (Return tt, Sample.controller,
     [RemoteController.api
        (Telegram.sendMessage (u16 "1001") (u16 "Unknown command. Use `/help`.")
           Markdown None)]).
Proof.
  apply (proj1 (unknown_command_gets_one_reply (Sample.incoming "/Help me")
                  Sample.outside Sample.controller (u16 "Help me") (u16 "Help")
                  [u16 "me"] eq_refl eq_refl eq_refl)).
  vm_compute. intros H. repeat destruct H as [H|H]; try discriminate H. exact H.
Defined.

(** ** The persisted state *)

Section StateMore.
Import ChannelsStateStore.

(** X26.  Every change of the state is written out at once: after any
    non-empty sequence of setter calls the file holds exactly the state in
    memory, and the path of the file is the one the store began with. *)
Theorem state_file_follows_state (ms : list Mutation) (s : t) :
  ms <> [] ->
  file (fold_left mutate ms s) = Some (state (fold_left mutate ms s))
  /\ statePath (fold_left mutate ms s) = statePath s.
Proof.
  intros Hne.
  assert (G : forall ms s, file s = Some (state s) ->
              file (fold_left mutate ms s) = Some (state (fold_left mutate ms s))
              /\ statePath (fold_left mutate ms s) = statePath s).
  { clear. induction ms as [|m ms IH]; intros s H; [now split|]. cbn [fold_left].
    destruct (IH (mutate s m)) as [A B]; [now destruct m|].
    split; [exact A|]. rewrite B. now destruct m. }
  destruct ms as [|m ms]; [congruence|]. cbn [fold_left].
  destruct (G ms (mutate s m)) as [A B]; [now destruct m|].
  split; [exact A|]. rewrite B. now destruct m.
Qed.

Lemma state_file_follows_state_witness :
  file (fold_left mutate
          [SetActiveSessionId (Some (u16 "ses_1")); SetEnabled false]
          (RemoteController.stateStore Sample.controller))
  = Some {| enabled := Some false; activeSessionId := Some (u16 "ses_1");
            telegram_lastUpdateId := None |}.
Proof.
  refine (proj1 (state_file_follows_state
                   [SetActiveSessionId (Some (u16 "ses_1")); SetEnabled false]
                   (RemoteController.stateStore Sample.controller) _)).
  discriminate.
Defined.

(** X27.  What is set is what is read, with one exception: an empty session id
    is not stored but clears the active session, as a missing one does.  No
    setter touches a field other than its own. *)
Theorem state_setters_round_trip (s : t) :
  (forall id, id <> [] ->
     getActiveSessionId (setActiveSessionId (Some id) s) = Some id)
  /\ getActiveSessionId (setActiveSessionId (Some []) s) = None
  /\ getActiveSessionId (setActiveSessionId None s) = None
  /\ (forall value default, isEnabled default (setEnabled value s) = value)
  /\ (forall n, getTelegramLastUpdateId (setTelegramLastUpdateId n s) = Some n)
  /\ (forall m default,
        (forall value, m <> SetEnabled value) ->
        isEnabled default (mutate s m) = isEnabled default s)
  /\ (forall m,
        (forall sessionId, m <> SetActiveSessionId sessionId) ->
        getActiveSessionId (mutate s m) = getActiveSessionId s)
  /\ (forall m,
        (forall n, m <> SetTelegramLastUpdateId n) ->
        getTelegramLastUpdateId (mutate s m) = getTelegramLastUpdateId s).
Proof.
  split; [intros [|c r] H; [congruence | reflexivity]|].
  repeat split.
  - intros [v|o|n] default H; try reflexivity. now destruct (H v).
  - intros [v|o|n] H; try reflexivity. now destruct (H o).
  - intros [v|o|n] H; try reflexivity. now destruct (H n).
Qed.

Lemma state_setters_round_trip_witness :
  getActiveSessionId
    (setActiveSessionId (Some (u16 "ses_1"))
       (RemoteController.stateStore Sample.controller))
  = Some (u16 "ses_1").
Proof.
  apply (proj1 (state_setters_round_trip
                  (RemoteController.stateStore Sample.controller))).
  discriminate.
Defined.

End StateMore.

(** ** Notifications *)

Section NotificationMore.
Import NotificationHandler.

Lemma length_u16 (s : string) : length (u16 s) = String.length s.
Proof. induction s as [|c s IH]; cbn; [reflexivity|]. now rewrite IH. Qed.

Lemma length_slice_to (n : nat) (s : jsstring) : (length (slice_to n s) <= n)%nat.
Proof. unfold slice_to. rewrite length_take. lia. Qed.

Lemma length_getIcon (type : EventType) : (length (getIcon type) <= 2)%nat.
Proof. destruct type; cbn; lia. Qed.

(** X28.  A notification is the event's message with at most 538 further code
    units: of the session id only the first 8 code units are shown and of
    the details only the first 500; without details, or with empty ones,
    at most 28 code units are added. *)
Theorem formatNotification_length (event : NotificationEvent) :
  (length (formatNotification event) <= length (message event) + 538)%nat
  /\ (truthy_opt (details event) = false ->
      (length (formatNotification event) <= length (message event) + 28)%nat).
Proof.
  unfold formatNotification.
  pose proof (length_getIcon (type event)) as Hi.
  destruct (sessionId event) as [sid|]; [destruct (truthy sid)|];
    (destruct (details event) as [d|]; [destruct (truthy d) eqn:Td|]);
    cbn [app join truthy_opt];
    try pose proof (length_slice_to 8 sid) as H8;
    try pose proof (length_slice_to 500 d) as H500;
    rewrite ?length_app, ?length_u16; cbn [String.length length];
    change (length newline) with 1%nat;
    change (length backtick) with 1%nat;
    (split; [lia | first [lia | rewrite ?Td; discriminate]]).
Qed.

Lemma formatNotification_length_witness :
  (length (formatNotification
             {| type := idle; sessionId := Some (u16 "ses_abcd1234");
                message := u16 "Session idle"; details := Some [] |})
   <= 12 + 28)%nat.
Proof.
  apply (proj2 (formatNotification_length
                  {| type := idle; sessionId := Some (u16 "ses_abcd1234");
                     message := u16 "Session idle"; details := Some [] |})).
  reflexivity.
Defined.

End NotificationMore.

(** ** The permission hook of the plugin *)

Section PluginMore.
Import PermissionHandler Plugin.

(** X29.  Whatever the handler does once it resumes, the hook returns normally
    to the host.  A timeout or a cleared store leaves the status as the
    host set it; an answer sets it to allow or deny only when it is exactly
    that word, and any other answer leaves it as well. *)
Theorem permission_ask_outcome (a : Awaiting) (fetched fetched' : Completion unit)
  (h : t) (status : Status) :
  match handlePermissionRequest_resume a fetched fetched' h with
  | None => promise_state (snd (world h)) (responsePromise a) = Some Pending
            \/ promise_state (snd (world h)) (responsePromise a) = None
  | Some (handled, _, _) =>
      fst (permission_ask handled status) = Return tt
      /\ (forall error,
            promise_state (snd (world h)) (responsePromise a)
            = Some (Rejected error) ->
            snd (permission_ask handled status) = status)
      /\ (forall response,
            promise_state (snd (world h)) (responsePromise a)
            = Some (Fulfilled response) ->
            snd (permission_ask handled status)
            = (if response === u16 "allow" then allow
               else if response === u16 "deny" then deny
               else status))
  end.
Proof.
  destruct (promise_state (snd (world h)) (responsePromise a)) as [[|response|error]|]
    eqn:P.
  - unfold handlePermissionRequest_resume. rewrite P. now left.
  - rewrite (resume_fulfilled a fetched fetched' h response P).
    unfold permission_ask.
    split; [now destruct (response === u16 "allow"), (response === u16 "deny")|].
    split; [discriminate|]. intros r [= <-].
    now destruct (response === u16 "allow"), (response === u16 "deny").
  - rewrite (resume_rejected a fetched fetched' h error P).
    unfold permission_ask.
    split; [reflexivity|]. split; [reflexivity | discriminate].
  - unfold handlePermissionRequest_resume. rewrite P. now right.
Qed.

End PluginMore.

Lemma permission_ask_outcome_witness :
  snd (Plugin.permission_ask
         (Throw (PendingRequestsStore.timeout_error
                   (PermissionHandler.generateId Sample.clock)))
         Plugin.ask)
  = Plugin.ask.
Proof.
  pose proof (permission_ask_outcome Sample.awaiting (Return tt) (Return tt)
                Sample.timed_out_handler Plugin.ask) as H.
  rewrite (resume_rejected Sample.awaiting (Return tt) (Return tt)
             Sample.timed_out_handler _ eq_refl) in H.
  exact (proj1 (proj2 H) _ eq_refl).
Defined.
